(** * num_string: numbers in plain English

    A shallow embedding of [num_string.py] and the properties of its
    integer renderer ([integer_string]) and dispatcher ([number_string]).

    Modelling conventions.
    - Python integers are [Z]; [//] and [%] are [Z.div] and [Z.modulo]
      (both floor towards minus infinity, as in Python).
    - Text is a [string] of 7-bit ASCII characters ([ascii_text]); on
      such text the regular-expression class [\d] is exactly the
      characters 0 to 9, the digits [int()] reads are the same ten, and the
      white space [int()] strips is the six C white-space characters.
      Statements that characterise which texts are matched or refused
      carry [ascii_text] as a hypothesis: text with other characters
      (the decimal digits and spaces of other scripts) is outside the
      model.
    - Dictionaries are [gmap Z string]; subscripting a missing key raises
      [KeyError].  The tuple [ILLIONS] is a list; subscripting it out of
      range raises [IndexError].
    - [int()] on a string follows the grammar of base-10 integer literals
      (white space around, an optional sign, digits with single
      underscores between them), and refuses a literal of more than
      [int_max_str_digits] digits, the interpreter's default limit.
    - A computation yields an [outcome]: a value, a raised exception, or
      [Hang] when a loop does not finish within its iteration budget. *)

From Stdlib Require Import ZArith String Ascii List Lia Bool.
From stdpp Require Import base option list gmap strings pretty.

Local Open Scope string_scope.
Local Open Scope list_scope.
Local Open Scope Z_scope.

(** ** Exceptions and outcomes *)

(** The ways a [ValueError] arises in [number_string]: the explicit
    [raise] of line 169, the one [int()] raises on a malformed literal,
    and the one [int()] raises on a literal with too many digits. *)
Inductive value_error :=
| CannotParseAsFloat
| InvalidLiteral
| ExceedsDigitLimit.

Inductive exn :=
| KeyError
| IndexError
| ValueError (why : value_error).

Inductive outcome (A : Type) :=
| Ok (a : A)
| Raise (e : exn)
| Hang.

Arguments Ok {A} a.
Arguments Raise {A} e.
Arguments Hang {A}.

Definition bind {A B} (m : outcome A) (f : A -> outcome B) : outcome B :=
  match m with
  | Ok a => f a
  | Raise e => Raise e
  | Hang => Hang
  end.

Notation "'do' x <- m 'in' k" := (bind m (fun x => k))
  (at level 10, x name, m at level 100, k at level 200, only parsing).
Notation "'do' ' p <- m 'in' k" :=
  (bind m (fun x => match x with p => k end))
  (at level 10, p pattern, m at level 100, k at level 200, only parsing).

Definition is_Ok {A} (m : outcome A) : Prop := exists a, m = Ok a.

Definition is_ValueError {A} (m : outcome A) : Prop :=
  exists why, m = Raise (ValueError why).

(** ** Vocabulary tables *)

Module Vocabulary.

Definition DIGIT_NAMES : gmap Z string :=
  list_to_map
    [ (0, "zero"); (1, "one"); (2, "two"); (3, "three"); (4, "four");
      (5, "five"); (6, "six"); (7, "seven"); (8, "eight"); (9, "nine") ].

Definition NUMBER_NAMES : gmap Z string :=
  list_to_map
    [ (10, "ten"); (11, "eleven"); (12, "twelve"); (13, "thirteen");
      (14, "fourteen"); (15, "fifteen"); (16, "sixteen");
      (17, "seventeen"); (18, "eighteen"); (19, "nineteen");
      (20, "twenty"); (30, "thirty"); (40, "forty"); (50, "fifty");
      (60, "sixty"); (70, "seventy"); (80, "eighty"); (90, "ninety") ].

(** [{**DIGIT_NAMES, **NUMBER_NAMES}]: on a shared key the right operand
    of the merge wins, which is the left operand of stdpp's union. *)
Definition UNIQUE_NUMBER_NAMES : gmap Z string :=
  NUMBER_NAMES ∪ DIGIT_NAMES.

Definition ILLIONS : list string :=
  [ "m"; "b"; "tr"; "quadr"; "quint"; "sext"; "sept"; "oct"; "non"; "dec";
    "undec"; "duodec"; "tredec"; "quattuordec"; "quindec"; "sexdec";
    "septendec"; "octodec"; "novemdec"; "vigint"; "unvigint"; "duovigint";
    "trevigint"; "quattuorvigint"; "quinvigint"; "sexvigint";
    "septenvigint"; "octovigint"; "novemvigint"; "trigint"; "untrigint";
    "duotrigint" ].

(** Crudely calculated maximum representable number. *)
Definition MAX : Z := 10 ^ ((Z.of_nat (length ILLIONS) + 2) * 3) - 1.

End Vocabulary.

Export Vocabulary.

(** ** Subscripting *)

(** [d[k]] on a dictionary. *)
Definition dict_getitem (d : gmap Z string) (k : Z) : outcome string :=
  match d !! k with
  | Some v => Ok v
  | None => Raise KeyError
  end.

(** [k in d]. *)
Definition dict_contains (d : gmap Z string) (k : Z) : bool :=
  bool_decide (is_Some (d !! k)).

(** [t[i]] on a tuple: a negative index counts from the end. *)
Definition tuple_getitem (t : list string) (i : Z) : outcome string :=
  let j := if i <? 0 then i + Z.of_nat (length t) else i in
  if j <? 0 then Raise IndexError
  else match t !! Z.to_nat j with
       | Some x => Ok x
       | None => Raise IndexError
       end.

(** ** The chunker: [last_to_first_digit] *)

(** The generator's [while number:] loop, collected into the list of the
    values it yields.  [fuel] bounds the number of loop tests; [None] means
    the loop is still running when the budget is spent. *)
Fixpoint last_to_first_digit (fuel : nat) (number base : Z)
  : option (list Z) :=
  match fuel with
  | O => None
  | S fuel =>
      if number =? 0 then Some []
      else cons (number mod base) <$> last_to_first_digit fuel (number / base) base
  end.

(** Iteration budget granted to the generator: two more than the index of
    the highest set bit of [number]. *)
Definition digit_budget (number : Z) : nat :=
  S (S (Z.to_nat (Z.log2 number))).

(** ** The integer renderer: [integer_string] *)

(** Body of the [for] loop for one non-zero chunk (lines 116 to 142): the
    phrase handed to [thousand_chunks.appendleft].  [chunk_words] is the
    list [words] as it stands at line 142. *)
Definition chunk_words (use_and : bool) (chunk_index chunk : Z)
  : outcome (list string) :=
  let words : list string := [] in
  let hundreds := chunk / 100 in
  let tens := chunk mod 100 in
  do '(tens, tens_name) <-
    (if dict_contains UNIQUE_NUMBER_NAMES tens then
       do tens_name <- dict_getitem UNIQUE_NUMBER_NAMES tens in
       Ok (tens, tens_name)
     else
       let digit := tens mod 10 in
       let tens := tens - digit in
       do tens_word <- dict_getitem NUMBER_NAMES tens in
       do digit_word <- dict_getitem DIGIT_NAMES digit in
       Ok (tens, tens_word +:+ "-" +:+ digit_word)) in
  do words <-
    (if hundreds =? 0 then Ok words
     else
       do hundreds_word <- dict_getitem DIGIT_NAMES hundreds in
       let words := words ++ [hundreds_word] in
       let words := words ++ ["hundred"] in
       Ok (if use_and && negb (tens =? 0) then words ++ ["and"] else words)) in
  let words := if tens =? 0 then words else words ++ [tens_name] in
  if chunk_index =? 1 then Ok (words ++ ["thousand"])
  else if 1 <? chunk_index then
    do root <- tuple_getitem ILLIONS (chunk_index - 2) in
    Ok (words ++ [root +:+ "illion"])
  else Ok words.

Definition chunk_phrase (use_and : bool) (chunk_index chunk : Z)
  : outcome string :=
  do words <- chunk_words use_and chunk_index chunk in
  Ok (String.concat " " words).

(** [for chunk_index, chunk in enumerate(chunks)]: [thousand_chunks] is the
    deque, whose left end is the head of the list. *)
Fixpoint for_chunks (use_and : bool) (chunk_index : Z) (chunks : list Z)
    (thousand_chunks : list string) : outcome (list string) :=
  match chunks with
  | [] => Ok thousand_chunks
  | chunk :: chunks =>
      if chunk =? 0 then
        for_chunks use_and (chunk_index + 1) chunks thousand_chunks
      else
        do phrase <- chunk_phrase use_and chunk_index chunk in
        for_chunks use_and (chunk_index + 1) chunks (phrase :: thousand_chunks)
  end.

(** Lines 103 to 144: what [integer_string] does past its first guard. *)
Definition integer_string_body (number : Z) (use_and : bool)
  : outcome string :=
  let sign_prefix := if number <? 0 then "minus " else "" in
  let number := Z.abs number in
  match last_to_first_digit (digit_budget number) number 1000 with
  | None => Hang
  | Some chunks =>
      do thousand_chunks <- for_chunks use_and 0 chunks [] in
      Ok (sign_prefix +:+ String.concat ", " thousand_chunks)
  end.

Definition integer_string (number : Z) (use_and : bool) : outcome string :=
  if number =? 0 then dict_getitem DIGIT_NAMES number
  else integer_string_body number use_and.

(** ** Regular expressions: [re.fullmatch] *)

Module Regex.

(** Abstract syntax of the patterns the program compiles.  Grouping
    parentheses do not change which strings match and are not recorded;
    [Never] (no string) only arises while matching. *)
Inductive re :=
| Never
| Eps
| Class (p : ascii -> bool)
| Alt (r1 r2 : re)
| Seq (r1 r2 : re)
| Star (r : re).

(** [r+] *)
Definition Plus (r : re) : re := Seq r (Star r).

Fixpoint nullable (r : re) : bool :=
  match r with
  | Never => false
  | Eps => true
  | Class _ => false
  | Alt r1 r2 => nullable r1 || nullable r2
  | Seq r1 r2 => nullable r1 && nullable r2
  | Star _ => true
  end.

(** What is left of [r] to match after reading [c]. *)
Fixpoint deriv (c : ascii) (r : re) : re :=
  match r with
  | Never => Never
  | Eps => Never
  | Class p => if p c then Eps else Never
  | Alt r1 r2 => Alt (deriv c r1) (deriv c r2)
  | Seq r1 r2 =>
      if nullable r1 then Alt (Seq (deriv c r1) r2) (deriv c r2)
      else Seq (deriv c r1) r2
  | Star r1 => Seq (deriv c r1) (Star r1)
  end.

(** [re.compile(r).fullmatch(s)] is not [None]. *)
Fixpoint fullmatch (r : re) (s : string) : bool :=
  match s with
  | EmptyString => nullable r
  | String c s => fullmatch (deriv c r) s
  end.

(** The strings a pattern denotes. *)
Inductive lang : re -> string -> Prop :=
| lang_eps : lang Eps ""
| lang_class p c : p c = true -> lang (Class p) (String c "")
| lang_alt_l r1 r2 s : lang r1 s -> lang (Alt r1 r2) s
| lang_alt_r r1 r2 s : lang r2 s -> lang (Alt r1 r2) s
| lang_seq r1 r2 s1 s2 :
    lang r1 s1 -> lang r2 s2 -> lang (Seq r1 r2) (s1 +:+ s2)
| lang_star_nil r : lang (Star r) ""
| lang_star_cons r s1 s2 :
    lang r s1 -> lang (Star r) s2 -> lang (Star r) (s1 +:+ s2).

End Regex.

Import Regex.

(** ** Characters and [int()] *)

Definition char_code (c : ascii) : Z := Z.of_N (N_of_ascii c).

(** The characters of ASCII text. *)
Definition is_ascii (c : ascii) : bool := char_code c <? 128.

(** [\d], and the digits [int()] accepts, among the characters of ASCII
    text: 0 to 9. *)
Definition is_digit (c : ascii) : bool :=
  (48 <=? char_code c) && (char_code c <=? 57).

(** [[1-9]] *)
Definition is_nonzero_digit (c : ascii) : bool :=
  (49 <=? char_code c) && (char_code c <=? 57).

Definition is_char (d c : ascii) : bool := Ascii.eqb c d.

(** The white space [int()] skips in ASCII text: space, tab, line feed,
    vertical tab, form feed, carriage return. *)
Definition is_space (c : ascii) : bool :=
  (char_code c =? 32) || ((9 <=? char_code c) && (char_code c <=? 13)).

Definition digit_value (c : ascii) : Z := char_code c - 48.

Fixpoint lstrip (s : string) : string :=
  match s with
  | EmptyString => EmptyString
  | String c r => if is_space c then lstrip r else s
  end.

Fixpoint rstrip (s : string) : string :=
  match s with
  | EmptyString => EmptyString
  | String c r =>
      match rstrip r with
      | EmptyString => if is_space c then EmptyString else String c EmptyString
      | r' => String c r'
      end
  end.

(** The digit part of a base-10 literal: digits, with single underscores
    allowed between two digits.  [after_digit] tells whether the character
    just read was a digit. *)
Fixpoint int_digits (acc : Z) (after_digit : bool) (s : string)
  : option Z :=
  match s with
  | EmptyString => if after_digit then Some acc else None
  | String c r =>
      if is_digit c then int_digits (10 * acc + digit_value c) true r
      else if is_char "_" c && after_digit then int_digits acc false r
      else None
  end.

(** [sys.int_info.default_max_str_digits]: [int()] refuses a literal
    with more digits than this. *)
Definition int_max_str_digits : Z := 4300.

(** The digits [int()] counts before it converts a digit part: those of
    the run of digits and underscores at its head.  There is no count
    when the run is empty, starts with an underscore, has two underscores
    in a row or ends with one: such a literal is refused as invalid
    whatever its length.  [after_underscore] tells whether the character
    just read was an underscore, or that none was read yet. *)
Fixpoint counted_digits (after_underscore : bool) (count : Z) (s : string)
  : option Z :=
  match s with
  | EmptyString => if after_underscore then None else Some count
  | String c r =>
      if is_digit c then counted_digits false (count + 1) r
      else if is_char "_" c then
        if after_underscore then None else counted_digits true count r
      else if after_underscore then None else Some count
  end.

Definition exceeds_digit_limit (digits : string) : bool :=
  match counted_digits true 0 digits with
  | Some count => int_max_str_digits <? count
  | None => false
  end.

(** [int(s)] for a string: surrounding white space is dropped, then an
    optional sign, then the digit part, which is refused when it has more
    than [int_max_str_digits] digits. *)
Definition py_int (s : string) : outcome Z :=
  let s := rstrip (lstrip s) in
  let '(negative, digits) :=
    match s with
    | String c r =>
        if is_char "-" c then (true, r)
        else if is_char "+" c then (false, r)
        else (false, s)
    | EmptyString => (false, s)
    end in
  if exceeds_digit_limit digits then Raise (ValueError ExceedsDigitLimit)
  else
    match int_digits 0 false digits with
    | Some n => Ok (if negative then - n else n)
    | None => Raise (ValueError InvalidLiteral)
    end.

(** [s.split(sep)] for a one-character separator. *)
Fixpoint split (sep : ascii) (s : string) : list string :=
  match s with
  | EmptyString => [EmptyString]
  | String c r =>
      if Ascii.eqb c sep then EmptyString :: split sep r
      else match split sep r with
           | part :: parts => String c part :: parts
           | [] => [String c EmptyString]
           end
  end.

(** ** The dispatcher: [number_string] *)

(** [INT_PATTERN]: the character 0 alone, or else one of [[1-9]], then
    [\d+], then any number (the Kleene star) of groups [_\d+].  The
    class [\d] is given by [is_digit], which is what it matches in ASCII
    text. *)
Definition INT_PATTERN : re :=
  Alt (Class (is_char "0"))
      (Seq (Class is_nonzero_digit)
           (Seq (Plus (Class is_digit))
                (Star (Seq (Class (is_char "_")) (Plus (Class is_digit)))))).

Definition INT_REGEX : re := INT_PATTERN.

(** The arguments [number_string] is given: a string, an integer, or any
    other object (a float, say), of which only the text [str()] returns
    for it matters. *)
Inductive pyvalue :=
| PyStr (s : string)
| PyInt (n : Z)
| PyOther (text : string).

Definition py_str (v : pyvalue) : string :=
  match v with
  | PyStr s => s
  | PyInt n => pretty n
  | PyOther text => text
  end.

(** [DIGIT_NAMES[int(digit)] for digit in points], left to right. *)
Fixpoint point_names (points : string) : outcome (list string) :=
  match points with
  | EmptyString => Ok []
  | String digit points =>
      do d <- py_int (String digit EmptyString) in
      do name <- dict_getitem DIGIT_NAMES d in
      do names <- point_names points in
      Ok (name :: names)
  end.

(** Lines 165 to 174. *)
Definition float_string (number : pyvalue) : outcome string :=
  match split "." (py_str number) with
  | [integer; points] =>
      do n <- py_int integer in
      do integer_part <- integer_string n true in
      do names <- point_names points in
      let points_part := String.concat " " names in
      Ok (integer_part +:+ " point " +:+ points_part)
  | _ => Raise (ValueError CannotParseAsFloat)
  end.

Definition number_string (number : pyvalue) : outcome string :=
  match
    match number with
    | PyStr s => if fullmatch INT_REGEX s then Some s else None
    | _ => None
    end
  with
  | Some s => do n <- py_int s in integer_string n true
  | None =>
      match number with
      | PyInt n => integer_string n true
      | _ => float_string number
      end
  end.

(** * Vocabulary of the statements *)

(** ** Text *)

Fixpoint all_chars (p : ascii -> bool) (s : string) : bool :=
  match s with
  | EmptyString => true
  | String c r => p c && all_chars p r
  end.

Fixpoint count_char (c : ascii) (s : string) : nat :=
  match s with
  | EmptyString => O
  | String d r => (if Ascii.eqb d c then 1 else 0)%nat + count_char c r
  end.

(** [needle in hay] *)
Fixpoint is_substring (needle hay : string) : bool :=
  String.prefix needle hay ||
  match hay with
  | EmptyString => false
  | String _ r => is_substring needle r
  end.

(** Every scale word the renderer can attach. *)
Definition scale_words : list string :=
  "thousand" :: map (fun root => root +:+ "illion") ILLIONS.

(** ** Chunks *)

(** Lines 137 to 140 on their own: the scale word appended to [words] at
    position [chunk_index]. *)
Definition add_scale (chunk_index : Z) (words : list string)
  : outcome (list string) :=
  if chunk_index =? 1 then Ok (words ++ ["thousand"])
  else if 1 <? chunk_index then
    do root <- tuple_getitem ILLIONS (chunk_index - 2) in
    Ok (words ++ [root +:+ "illion"])
  else Ok words.

(** The base-1000 digit of [n] at position [i], least significant first. *)
Definition chunk_at (n : Z) (i : nat) : Z :=
  (Z.abs n / 1000 ^ Z.of_nat i) mod 1000.

(** The phrase of a chunk value with no scale word: what the renderer
    returns for the chunk taken as a number of its own. *)
Definition chunk_name (use_and : bool) (chunk : Z) : string :=
  match integer_string chunk use_and with
  | Ok phrase => phrase
  | _ => EmptyString
  end.

(** The scale word of position [i], with the space that separates it from
    the chunk's name: none at 0, thousand at 1, then the illions. *)
Definition scale_suffix (i : nat) : string :=
  match i with
  | O => EmptyString
  | S O => " thousand"
  | S (S k) =>
      match ILLIONS !! k with
      | Some root => " " +:+ root +:+ "illion"
      | None => EmptyString
      end
  end.

(** Number of chunk positions that have a scale word or need none. *)
Definition positions : nat := length ILLIONS + 2.

(** The phrase of position [i] of [n], if its chunk is not zero. *)
Definition position_phrase (use_and : bool) (n : Z) (i : nat)
  : option string :=
  let chunk := chunk_at n i in
  if chunk =? 0 then None
  else Some (chunk_name use_and chunk +:+ scale_suffix i).

(** The rendering described position by position: non-zero chunks named,
    suffixed with their scale word, most significant first, joined with a
    comma and a space, behind the sign. *)
Definition render_by_position (use_and : bool) (n : Z) : string :=
  (if n <? 0 then "minus " else "") +:+
  String.concat ", " (rev (omap (position_phrase use_and n) (seq 0 positions))).

(** ** Checks run over all chunk values *)

(** The name of a non-zero chunk is computed, is not empty, and is what
    the renderer returns for the chunk value itself. *)
Definition chunk_words_ok (use_and : bool) (chunk : Z) : bool :=
  match chunk_words use_and 0 chunk, integer_string chunk use_and with
  | Ok (w :: ws), Ok phrase =>
      bool_decide (phrase = String.concat " " (w :: ws))
  | _, _ => false
  end.

(** Where the conjunction stands in the words of a chunk. *)
Definition and_placed (use_and : bool) (chunk : Z) : bool :=
  match chunk_words use_and 0 chunk with
  | Ok words =>
      if use_and && negb (chunk / 100 =? 0) && negb (chunk mod 100 =? 0) then
        match DIGIT_NAMES !! (chunk / 100),
              chunk_words use_and 0 (chunk mod 100) with
        | Some h, Ok [t] => bool_decide (words = [h; "hundred"; "and"; t])
        | _, _ => false
        end
      else bool_decide ("and" ∉ words)
  | _ => false
  end.

(** A number below one thousand is rendered with no comma and no scale
    word; a compound of tens and units is two table words and a hyphen. *)
Definition small_number_plain (n : Z) : bool :=
  match integer_string n true with
  | Ok phrase =>
      bool_decide (count_char "," phrase = O) &&
      forallb (fun w => negb (is_substring w phrase)) scale_words &&
      (if (21 <=? n) && (n <=? 99) && negb (n mod 10 =? 0) then
         bool_decide (count_char "-" phrase = 1%nat) &&
         match NUMBER_NAMES !! (n - n mod 10), DIGIT_NAMES !! (n mod 10) with
         | Some tens_word, Some digit_word =>
             bool_decide (phrase = tens_word +:+ "-" +:+ digit_word)
         | _, _ => false
         end
       else true)
  | _ => false
  end.

(** Which remainders take the hyphenated branch, and that its two lookups
    are then in their tables. *)
Definition remainder_lookup_ok (r : Z) : bool :=
  if dict_contains UNIQUE_NUMBER_NAMES r then
    negb ((21 <=? r) && negb (r mod 10 =? 0)) &&
    implb ((1 <=? r) && (r <=? 9))
          (bool_decide (UNIQUE_NUMBER_NAMES !! r = DIGIT_NAMES !! r))
  else
    (21 <=? r) && (r <=? 99) && negb (r mod 10 =? 0) &&
    (20 <=? r - r mod 10) && (r - r mod 10 <=? 90) &&
    ((r - r mod 10) mod 10 =? 0) &&
    bool_decide (is_Some (NUMBER_NAMES !! (r - r mod 10))) &&
    bool_decide (is_Some (DIGIT_NAMES !! (r mod 10))).

(** A remainder from 1 to 9 is named by its bare digit word. *)
Definition digit_remainder_ok (use_and : bool) (r : Z) : bool :=
  match DIGIT_NAMES !! r, chunk_words use_and 0 r with
  | Some w, Ok [w'] => bool_decide (w' = w)
  | _, _ => false
  end.

(** ** Integer literals *)

(** The number a string of decimal digits denotes. *)
Fixpoint decimal_from (acc : Z) (s : string) : Z :=
  match s with
  | EmptyString => acc
  | String c r => decimal_from (10 * acc + digit_value c) r
  end.

Definition decimal_value (s : string) : Z := decimal_from 0 s.

(** A non-empty run of digits. *)
Definition digit_group (s : string) : bool :=
  match s with
  | EmptyString => false
  | String _ _ => all_chars is_digit s
  end.

(** A first digit, more digits, and groups each led by an underscore. *)
Definition grouped_literal (first : ascii) (rest : string)
    (groups : list string) : string :=
  String first rest +:+ String.concat "" (map (String "_") groups).

(** The same digits with the underscores left out. *)
Definition grouped_digits (first : ascii) (rest : string)
    (groups : list string) : string :=
  String first rest +:+ String.concat "" groups.

(** ** Arguments of the dispatcher *)

Definition is_ok {A} (m : outcome A) : bool :=
  match m with
  | Ok _ => true
  | _ => false
  end.

(** A string that [INT_REGEX] matches in full. *)
Definition recognized_integer_string (v : pyvalue) : bool :=
  match v with
  | PyStr s => fullmatch INT_REGEX s
  | _ => false
  end.

Definition is_integer (v : pyvalue) : bool :=
  match v with
  | PyInt _ => true
  | _ => false
  end.

(** The text of [v] falls at a decimal point into exactly two parts, of
    which the first is an integer literal and the second is made of
    digits only. *)
Definition decomposable (v : pyvalue) : bool :=
  match split "." (py_str v) with
  | [integer; points] => is_ok (py_int integer) && all_chars is_digit points
  | _ => false
  end.

(** The text of [v] falls at a decimal point into exactly two parts. *)
Definition splits_in_two (v : pyvalue) : bool :=
  match split "." (py_str v) with
  | [_; _] => true
  | _ => false
  end.

(** If [v] has an integer part, it is one the renderer has scale words
    for. *)
Definition integer_part_within_MAX (v : pyvalue) : bool :=
  match split "." (py_str v) with
  | [integer; _] =>
      match py_int integer with
      | Ok n => Z.abs n <=? MAX
      | _ => true
      end
  | _ => true
  end.

(** The word of one fractional digit. *)
Definition digit_word (c : ascii) : string :=
  match DIGIT_NAMES !! digit_value c with
  | Some w => w
  | None => EmptyString
  end.

(** The characters of an unsigned literal: digits and underscores. *)
Definition literal_char (c : ascii) : bool := is_digit c || is_char "_" c.

Definition not_space (c : ascii) : bool := negb (is_space c).

Definition not_point (c : ascii) : bool := negb (Ascii.eqb c ".").

(** No [ValueError], of either kind, comes out of [m]. *)
Definition no_ValueError {A} (m : outcome A) : Prop :=
  forall why, m <> Raise (ValueError why).

(** [number_string] raises [ValueError] on [v] exactly when [v] is none of:
    a string [INT_REGEX] matches, an integer, a text that falls at the
    point into an integer literal and digits. *)
Definition ValueError_iff_unrecognized (v : pyvalue) : Prop :=
  is_ValueError (number_string v) <->
  recognized_integer_string v = false /\ is_integer v = false /\
  decomposable v = false.

(** Text of ASCII characters only. *)
Definition ascii_text (s : string) : bool := all_chars is_ascii s.

(** The number of digits in [s]. *)
Fixpoint digit_total (s : string) : Z :=
  match s with
  | EmptyString => 0
  | String c r => (if is_digit c then 1 else 0) + digit_total r
  end.

(** A string with more digits than [int()] converts. *)
Definition beyond_digit_limit (v : pyvalue) : bool :=
  match v with
  | PyStr s => int_max_str_digits <? digit_total s
  | _ => false
  end.

(** [number_string] raises [ValueError] on [v] exactly when [v] is a
    string [INT_REGEX] matches that has more digits than [int()]
    converts, or [v] is none of: a string [INT_REGEX] matches, an integer,
    a text that falls at the point into a literal [int()] accepts and
    digits. *)
Definition ValueError_iff_refused (v : pyvalue) : Prop :=
  is_ValueError (number_string v) <->
  (recognized_integer_string v = true /\ beyond_digit_limit v = true) \/
  (recognized_integer_string v = false /\ is_integer v = false /\
   decomposable v = false).

(** A one followed by [k] zeros. *)
Definition one_and_zeros (k : nat) : string :=
  String "1" (string_of_list_ascii (replicate k "0"%char)).

(** * Further vocabulary *)

(** ** Digits *)

(** The number whose digits in base [base] are [digits], least significant
    first. *)
Fixpoint from_digits (base : Z) (digits : list Z) : Z :=
  match digits with
  | [] => 0
  | d :: ds => d + base * from_digits base ds
  end.

(** ** [FLOAT_REGEX] *)

(** The parenthesised alternative of [INT_PATTERN]. *)
Definition INT_LITERAL : re :=
  Seq (Class is_nonzero_digit)
      (Seq (Plus (Class is_digit))
           (Star (Seq (Class (is_char "_")) (Plus (Class is_digit))))).

(** [FLOAT_REGEX = re.compile(INT_PATTERN + r'\.' + INT_PATTERN)].  The
    pattern text is the text of [INT_PATTERN], an escaped point, and the
    text of [INT_PATTERN] again; alternation binds weaker than
    concatenation, so the compiled pattern has three alternatives: the
    character 0; the parenthesised literal, a point and the character 0;
    the parenthesised literal. *)
Definition FLOAT_REGEX : re :=
  Alt (Class (is_char "0"))
      (Alt (Seq INT_LITERAL (Seq (Class (is_char ".")) (Class (is_char "0"))))
           INT_LITERAL).

(** ** The random strings *)

(** What the [random] module hands out during one call of
    [random_integer_string]: the value of [randrange(1, 10)], the value of
    [randrange(0, max_digits - 1)], and the characters chosen by
    [choices(string.digits, k=integer_count)]. *)
Record draws := {
  drawn_first : Z;
  drawn_count : Z;
  drawn_tail : string
}.

(** The draws are ones the [random] module can make for [max_digits]. *)
Definition well_drawn (max_digits : Z) (d : draws) : bool :=
  (1 <=? drawn_first d) && (drawn_first d <? 10) &&
  (0 <=? drawn_count d) && (drawn_count d <? max_digits - 1) &&
  (Z.of_nat (String.length (drawn_tail d)) =? drawn_count d) &&
  all_chars is_digit (drawn_tail d).

(** A call either returns, or [randrange] is asked for a value in an
    empty range, which raises [ValueError]. *)
Inductive drawn (A : Type) :=
| Returned (a : A)
| EmptyRange.

Arguments Returned {A} a.
Arguments EmptyRange {A}.

(** [str(d)] for a digit [d]. *)
Definition digit_text (d : Z) : string :=
  String (ascii_of_N (Z.to_N (48 + d))) EmptyString.

Definition random_integer_string (max_digits : Z) (d : draws)
  : drawn string :=
  let first := digit_text (drawn_first d) in
  if 0 <? max_digits - 1 then
    let tail := drawn_tail d in
    Returned (first +:+ tail)
  else EmptyRange.

(** [random_number_string(max_integer_digits, max_decimal_points)]:
    [below_half] is the outcome of [random.random() < 0.5]; the second
    draws are made only when it is false. *)
Definition random_number_string (max_integer_digits max_decimal_points : Z)
    (integer_draws : draws) (below_half : bool) (decimal_draws : draws)
  : drawn string :=
  match random_integer_string max_integer_digits integer_draws with
  | EmptyRange => EmptyRange
  | Returned integer =>
      if below_half then Returned integer
      else
        match random_integer_string max_decimal_points decimal_draws with
        | EmptyRange => EmptyRange
        | Returned decimals => Returned (integer +:+ "." +:+ decimals)
        end
  end.

(** ** Reading a phrase back *)

Definition not_blank (c : ascii) : bool := negb (Ascii.eqb c " ").

Definition not_comma (c : ascii) : bool := negb (Ascii.eqb c ",").

(** What follows the last space of a text; the text itself if it has no
    space. *)
Fixpoint last_word (s : string) : string :=
  match s with
  | EmptyString => EmptyString
  | String c r =>
      if all_chars not_blank r then
        if Ascii.eqb c " " then r else s
      else last_word r
  end.

Fixpoint index_of (w : string) (l : list string) : option nat :=
  match l with
  | [] => None
  | x :: l => if String.eqb x w then Some O else S <$> index_of w l
  end.

(** The position a phrase belongs to, read off its last word: the place
    of that word among the scale words, and 0 if it is none of them. *)
Definition position_of_phrase (p : string) : nat :=
  match index_of (last_word p) scale_words with
  | Some k => S k
  | None => O
  end.

(** The names of the chunk values from 1 to 999, each with its value. *)
Definition chunk_names (use_and : bool) : list (Z * string) :=
  map (fun c => (c, chunk_name use_and c)) (seqZ 1 999).

(** Looking a name up in the table of names gives back the value it was
    computed from: no two chunk values have the same name. *)
Definition names_decodable (use_and : bool) : bool :=
  let table := chunk_names use_and in
  forallb
    (fun p =>
       match find (fun q => String.eqb (snd q) (snd p)) table with
       | Some q => fst q =? fst p
       | None => false
       end)
    table.

(** A chunk's name starts with a letter other than m and z, has no comma,
    and does not end with a scale word. *)
Definition name_readable (use_and : bool) (chunk : Z) : bool :=
  let name := chunk_name use_and chunk in
  match name with
  | EmptyString => false
  | String c _ => negb (Ascii.eqb c "m") && negb (Ascii.eqb c "z")
  end &&
  all_chars not_comma name &&
  Nat.eqb (position_of_phrase name) 0.

(** The scale suffix of a position from 1 on is a space and one word with
    no space and no comma, and the word is the one of that position. *)
Definition suffix_readable (i : nat) : bool :=
  match i with
  | O => true
  | S k =>
      match scale_suffix i with
      | String c w =>
          Ascii.eqb c " " && all_chars not_blank w && all_chars not_comma w &&
          match index_of w scale_words with
          | Some j => Nat.eqb j k
          | None => false
          end
      | EmptyString => false
      end
  end.

(** A phrase that can be told apart: it has no comma and starts with a
    letter other than m and z. *)
Definition readable_phrase (s : string) : Prop :=
  all_chars not_comma s = true /\
  exists c r, s = String c r /\ c <> "m"%char /\ c <> "z"%char.

(** ** The characters of a phrase *)

Definition is_lower (c : ascii) : bool :=
  (97 <=? char_code c) && (char_code c <=? 122).

(** A lower-case letter, a space, a comma or a hyphen. *)
Definition phrase_char (c : ascii) : bool :=
  is_lower c || Ascii.eqb c " " || Ascii.eqb c "," || Ascii.eqb c "-".

(** * Properties *)

(** ** Outcomes *)

(** A boolean check run over a whole interval settles every point in it. *)
Lemma forallb_seqZ (P : Z -> bool) (lo len : Z) :
  forallb P (seqZ lo len) = true ->
  forall n, lo <= n < lo + len -> P n = true.
Proof.
  intros H n Hn. rewrite forallb_forall in H. apply H.
  apply list_elem_of_In, elem_of_seqZ. lia.
Qed.

(** Settling a comparison on [Z] whose answer arithmetic decides. *)
Ltac ztrue t :=
  replace t with true
    by (symmetry;
        first [apply Z.eqb_eq | apply Z.ltb_lt | apply Z.leb_le]; lia).
Ltac zfalse t :=
  replace t with false
    by (symmetry;
        first [apply Z.eqb_neq | apply Z.ltb_ge | apply Z.leb_gt]; lia).

(** ** Text *)

Lemma append_cons (x : ascii) (a b : string) :
  String x a +:+ b = String x (a +:+ b).
Proof. reflexivity. Qed.

Lemma append_assoc (a b c : string) : (a +:+ b) +:+ c = a +:+ (b +:+ c).
Proof.
  induction a as [|x a IH]; [reflexivity|].
  rewrite !append_cons. now rewrite IH.
Qed.

Lemma append_empty_r (a : string) : a +:+ "" = a.
Proof.
  induction a as [|x a IH]; [reflexivity|].
  rewrite append_cons. now rewrite IH.
Qed.

(** [sep.join(ws + [w])] when [ws] is not empty. *)
Lemma concat_snoc (sep w : string) (ws : list string) :
  ws <> [] ->
  String.concat sep (ws ++ [w]) = String.concat sep ws +:+ sep +:+ w.
Proof.
  induction ws as [|x ws IH]; intros Hne; [congruence|].
  destruct ws as [|y ws]; [reflexivity|].
  change (String.concat sep ((x :: y :: ws) ++ [w]))
    with (x +:+ sep +:+ String.concat sep ((y :: ws) ++ [w])).
  rewrite IH by discriminate.
  change (String.concat sep (x :: y :: ws))
    with (x +:+ sep +:+ String.concat sep (y :: ws)).
  now rewrite !append_assoc.
Qed.

(** ** The loop body *)

Lemma tuple_getitem_lookup (t : list string) (k : nat) (x : string) :
  t !! k = Some x -> tuple_getitem t (Z.of_nat k) = Ok x.
Proof.
  intros H. unfold tuple_getitem.
  zfalse (Z.of_nat k <? 0). cbv zeta iota. zfalse (Z.of_nat k <? 0).
  now rewrite Nat2Z.id, H.
Qed.

Lemma tuple_getitem_beyond (t : list string) (k : nat) :
  (length t <= k)%nat -> tuple_getitem t (Z.of_nat k) = Raise IndexError.
Proof.
  intros H. unfold tuple_getitem.
  zfalse (Z.of_nat k <? 0). cbv zeta iota. zfalse (Z.of_nat k <? 0).
  rewrite Nat2Z.id. now rewrite (lookup_ge_None_2 t k H).
Qed.

(** The words of a chunk at any position are its words at position 0 with
    the scale word of the position appended. *)
Lemma chunk_words_scale (use_and : bool) (chunk_index chunk : Z) :
  chunk_words use_and chunk_index chunk =
  do words <- chunk_words use_and 0 chunk in add_scale chunk_index words.
Proof.
  unfold chunk_words, add_scale.
  match goal with |- context [bind ?m _] => destruct m as [[t tn]| |] end;
    simpl; try reflexivity.
  match goal with |- context [bind ?m _] => destruct m as [ws| |] end;
    simpl; reflexivity.
Qed.

Lemma chunk_checked (use_and : bool) (chunk : Z) :
  1 <= chunk <= 999 -> chunk_words_ok use_and chunk = true.
Proof.
  intros H. destruct use_and.
  - apply (forallb_seqZ (chunk_words_ok true) 1 999); [now vm_compute | lia].
  - apply (forallb_seqZ (chunk_words_ok false) 1 999); [now vm_compute | lia].
Qed.

(** A chunk from 1 to 999 has a non-empty list of words at position 0, and
    their join is the chunk's name. *)
Lemma chunk_words_name (use_and : bool) (chunk : Z) :
  1 <= chunk <= 999 ->
  exists words,
    chunk_words use_and 0 chunk = Ok words /\ words <> [] /\
    integer_string chunk use_and = Ok (String.concat " " words) /\
    chunk_name use_and chunk = String.concat " " words.
Proof.
  intros H. pose proof (chunk_checked use_and chunk H) as Hc.
  unfold chunk_words_ok in Hc. unfold chunk_name.
  destruct (chunk_words use_and 0 chunk) as [[|w ws]| |]; try discriminate.
  destruct (integer_string chunk use_and) as [phrase| |]; try discriminate.
  apply bool_decide_eq_true in Hc. subst phrase.
  exists (w :: ws). repeat split; congruence.
Qed.

(** The scale word is in the table at every position below [positions]. *)
Lemma add_scale_suffix (i : nat) (words : list string) :
  (i < positions)%nat -> words <> [] ->
  exists words',
    add_scale (Z.of_nat i) words = Ok words' /\
    String.concat " " words' = String.concat " " words +:+ scale_suffix i.
Proof.
  intros Hi Hne. unfold add_scale.
  destruct i as [|[|k]].
  - exists words. simpl. now rewrite append_empty_r.
  - exists (words ++ ["thousand"]). split; [reflexivity|].
    now rewrite concat_snoc.
  - assert (Hk : (k < length ILLIONS)%nat) by (unfold positions in Hi; lia).
    destruct (lookup_lt_is_Some_2 ILLIONS k Hk) as [root Hroot].
    zfalse (Z.of_nat (S (S k)) =? 1). ztrue (1 <? Z.of_nat (S (S k))).
    replace (Z.of_nat (S (S k)) - 2) with (Z.of_nat k) by lia.
    rewrite (tuple_getitem_lookup _ _ _ Hroot). simpl bind.
    exists (words ++ [root +:+ "illion"]). split; [reflexivity|].
    rewrite concat_snoc by assumption.
    unfold scale_suffix. now rewrite Hroot.
Qed.

(** The phrase pushed on the deque for a non-zero chunk. *)
Lemma chunk_phrase_position (use_and : bool) (i : nat) (chunk : Z) :
  (i < positions)%nat -> 1 <= chunk <= 999 ->
  chunk_phrase use_and (Z.of_nat i) chunk =
  Ok (chunk_name use_and chunk +:+ scale_suffix i).
Proof.
  intros Hi Hc.
  destruct (chunk_words_name use_and chunk Hc) as (ws & Hws & Hne & _ & Hname).
  destruct (add_scale_suffix i ws Hi Hne) as (ws' & Hs & Hjoin).
  unfold chunk_phrase. rewrite chunk_words_scale, Hws. simpl bind.
  rewrite Hs. simpl bind. now rewrite Hjoin, Hname.
Qed.

(** ** The chunker *)

Lemma pow_1000_succ (i : nat) :
  1000 ^ Z.of_nat (S i) = 1000 * 1000 ^ Z.of_nat i.
Proof. rewrite Nat2Z.inj_succ. apply Z.pow_succ_r. lia. Qed.

Lemma pow_1000_pos (i : nat) : 0 < 1000 ^ Z.of_nat i.
Proof. apply Z.pow_pos_nonneg; lia. Qed.

Lemma seq_succ_map (f : nat -> Z) (k : nat) :
  map f (seq 1 k) = map (fun i => f (S i)) (seq 0 k).
Proof. rewrite <- seq_shift. now rewrite map_map. Qed.

(** With a budget of one test more than the number of bits of [m], the
    generator stops, having yielded the base-1000 digits of [m]. *)
Lemma last_to_first_digit_chunks (fuel : nat) :
  forall m, 0 <= m < 2 ^ Z.of_nat fuel ->
  exists k,
    last_to_first_digit (S fuel) m 1000 =
      Some (map (fun i => (m / 1000 ^ Z.of_nat i) mod 1000) (seq 0 k)) /\
    m < 1000 ^ Z.of_nat k /\
    (m = 0 -> k = O) /\
    (0 < m -> 1000 ^ (Z.of_nat k - 1) <= m).
Proof.
  induction fuel as [|fuel IH]; intros m Hm.
  - assert (m = 0) by (change (2 ^ Z.of_nat 0) with 1 in Hm; lia). subst m.
    exists O. repeat split; try reflexivity; lia.
  - destruct (Z.eq_dec m 0) as [->|Hne].
    + exists O. repeat split; try reflexivity; lia.
    + assert (Hdiv : 0 <= m / 1000 < 2 ^ Z.of_nat fuel).
      { split; [apply Z.div_pos; lia|].
        rewrite Nat2Z.inj_succ, Z.pow_succ_r in Hm by lia.
        apply Z.div_lt_upper_bound; lia. }
      destruct (IH _ Hdiv) as (k & Hk & Hlt & Hz & Hge).
      exists (S k).
      change (last_to_first_digit (S (S fuel)) m 1000)
        with (if m =? 0 then Some []
              else cons (m mod 1000) <$>
                     last_to_first_digit (S fuel) (m / 1000) 1000).
      zfalse (m =? 0). rewrite Hk.
      repeat split.
      * change (seq 0 (S k)) with (O :: seq 1 k).
        rewrite map_cons, seq_succ_map. simpl Z.of_nat at 1.
        rewrite Z.pow_0_r, Z.div_1_r. cbn [fmap option_fmap option_map].
        do 2 f_equal. apply map_ext. intros i.
        rewrite pow_1000_succ, Z.div_div by
          (try apply pow_1000_pos; lia).
        reflexivity.
      * rewrite pow_1000_succ.
        pose proof (Z.div_mod m 1000 ltac:(lia)).
        pose proof (Z.mod_pos_bound m 1000 ltac:(lia)). nia.
      * lia.
      * intros _. replace (Z.of_nat (S k) - 1) with (Z.of_nat k) by lia.
        pose proof (Z.div_mod m 1000 ltac:(lia)) as Hdm.
        pose proof (Z.mod_pos_bound m 1000 ltac:(lia)) as Hmod.
        destruct k as [|k].
        -- change (1000 ^ Z.of_nat 0) with 1. lia.
        -- assert (0 < m / 1000).
           { destruct (Z.eq_dec (m / 1000) 0) as [E|E]; [|lia].
             specialize (Hz E). discriminate. }
           specialize (Hge ltac:(assumption)).
           replace (Z.of_nat (S k) - 1) with (Z.of_nat k) in Hge by lia.
           rewrite pow_1000_succ. nia.
Qed.

Lemma digit_budget_enough (m : Z) :
  0 <= m -> exists fuel,
    digit_budget m = S fuel /\ m < 2 ^ Z.of_nat fuel.
Proof.
  intros Hm. exists (S (Z.to_nat (Z.log2 m))). split; [reflexivity|].
  rewrite Nat2Z.inj_succ, Z2Nat.id by apply Z.log2_nonneg.
  destruct (Z.eq_dec m 0) as [->|Hne]; [reflexivity|].
  apply Z.log2_spec. lia.
Qed.

(** The generator as the renderer calls it: it always stops, and yields
    the chunks of the number position by position. *)
Lemma chunks_of_abs (n : Z) :
  exists k,
    last_to_first_digit (digit_budget (Z.abs n)) (Z.abs n) 1000 =
      Some (map (chunk_at n) (seq 0 k)) /\
    Z.abs n < 1000 ^ Z.of_nat k /\
    (Z.abs n = 0 -> k = O) /\
    (0 < Z.abs n -> 1000 ^ (Z.of_nat k - 1) <= Z.abs n).
Proof.
  destruct (digit_budget_enough (Z.abs n) (Z.abs_nonneg n)) as (fuel & -> & Hb).
  destruct (last_to_first_digit_chunks fuel (Z.abs n)) as (k & Hk & Hlt & Hz & Hge);
    [lia|].
  exists k. now repeat split.
Qed.

Lemma chunk_at_range (n : Z) (i : nat) : 0 <= chunk_at n i <= 999.
Proof.
  unfold chunk_at.
  pose proof (Z.mod_pos_bound (Z.abs n / 1000 ^ Z.of_nat i) 1000 ltac:(lia)).
  lia.
Qed.

Lemma chunk_at_beyond (n : Z) (k i : nat) :
  Z.abs n < 1000 ^ Z.of_nat k -> (k <= i)%nat -> chunk_at n i = 0.
Proof.
  intros Hlt Hki. unfold chunk_at.
  rewrite Z.div_small; [reflexivity|].
  split; [lia|]. eapply Z.lt_le_trans; [exact Hlt|].
  apply Z.pow_le_mono_r; lia.
Qed.

Lemma MAX_bound : MAX + 1 = 1000 ^ Z.of_nat positions.
Proof. now vm_compute. Qed.

(** Up to [MAX] there are no more chunks than positions. *)
Lemma chunk_count_within_MAX (n : Z) (k : nat) :
  Z.abs n <= MAX ->
  (Z.abs n = 0 -> k = O) ->
  (0 < Z.abs n -> 1000 ^ (Z.of_nat k - 1) <= Z.abs n) ->
  (k <= positions)%nat.
Proof.
  intros Hmax Hz Hge.
  destruct (Z.eq_dec (Z.abs n) 0) as [E|E]; [rewrite (Hz E); lia|].
  specialize (Hge ltac:(lia)).
  destruct (le_lt_dec k positions) as [|Hgt]; [assumption|exfalso].
  assert (1000 ^ Z.of_nat positions <= 1000 ^ (Z.of_nat k - 1))
    by (apply Z.pow_le_mono_r; lia).
  pose proof MAX_bound. lia.
Qed.

(** Beyond [MAX] there is a non-zero chunk past the last position. *)
Lemma chunk_count_beyond_MAX (n : Z) (k : nat) :
  MAX < Z.abs n -> Z.abs n < 1000 ^ Z.of_nat k -> (positions < k)%nat.
Proof.
  intros Hmax Hlt.
  destruct (le_lt_dec k positions) as [Hle|]; [exfalso|assumption].
  assert (1000 ^ Z.of_nat k <= 1000 ^ Z.of_nat positions)
    by (apply Z.pow_le_mono_r; lia).
  pose proof MAX_bound. lia.
Qed.

(** ** The loop *)

Lemma omap_cons {A B} (f : A -> option B) (x : A) (l : list A) :
  omap f (x :: l) =
  match f x with
  | Some y => y :: omap f l
  | None => omap f l
  end.
Proof. reflexivity. Qed.

Lemma omap_position_beyond (use_and : bool) (n : Z) (k : nat) :
  Z.abs n < 1000 ^ Z.of_nat k ->
  forall len i, (k <= i)%nat ->
  omap (position_phrase use_and n) (seq i len) = [].
Proof.
  intros Hlt. induction len as [|len IH]; intros i Hi; [reflexivity|].
  change (seq i (S len)) with (i :: seq (S i) len).
  rewrite omap_cons. unfold position_phrase at 1.
  rewrite (chunk_at_beyond n k i Hlt Hi). cbn [Z.eqb].
  apply IH. lia.
Qed.

(** The loop over the chunks of [n], started at position [i] with the
    deque holding [acc]: it pushes the phrase of every non-zero chunk. *)
Lemma for_chunks_positions (use_and : bool) (n : Z) :
  forall k i acc, (i + k <= positions)%nat ->
  for_chunks use_and (Z.of_nat i) (map (chunk_at n) (seq i k)) acc =
  Ok (rev (omap (position_phrase use_and n) (seq i k)) ++ acc).
Proof.
  induction k as [|k IH]; intros i acc Hik; [reflexivity|].
  change (seq i (S k)) with (i :: seq (S i) k).
  rewrite map_cons, omap_cons. cbn [for_chunks].
  replace (Z.of_nat i + 1) with (Z.of_nat (S i)) by lia.
  unfold position_phrase at 1.
  pose proof (chunk_at_range n i) as Hr.
  destruct (chunk_at n i =? 0) eqn:E.
  - apply IH. lia.
  - apply Z.eqb_neq in E.
    rewrite chunk_phrase_position by (try lia; unfold positions in *; lia).
    cbn [bind]. rewrite IH by lia.
    cbn [rev]. now rewrite <- app_assoc.
Qed.

Lemma omap_append {A B} (f : A -> option B) (l1 l2 : list A) :
  omap f (l1 ++ l2) = omap f l1 ++ omap f l2.
Proof.
  induction l1 as [|x l1 IH]; [reflexivity|].
  rewrite <- app_comm_cons, !omap_cons, IH. now destruct (f x).
Qed.

Lemma omap_pointwise {A B} (f g : A -> option B) (l : list A) :
  (forall x, f x = g x) -> omap f l = omap g l.
Proof.
  intros H. induction l as [|x l IH]; [reflexivity|].
  now rewrite !omap_cons, IH, H.
Qed.

(** ** The renderer below [MAX] *)

(** Past its first guard the renderer returns, for any number of magnitude
    at most [MAX], the rendering described position by position. *)
Lemma integer_string_body_within_MAX (n : Z) (use_and : bool) :
  Z.abs n <= MAX ->
  integer_string_body n use_and = Ok (render_by_position use_and n).
Proof.
  intros Hmax. unfold integer_string_body.
  destruct (chunks_of_abs n) as (k & Hk & Hlt & Hz & Hge). rewrite Hk.
  pose proof (chunk_count_within_MAX n k Hmax Hz Hge) as Hle.
  pose proof (for_chunks_positions use_and n k 0 [] ltac:(lia)) as Hloop.
  change (Z.of_nat 0) with 0 in Hloop. rewrite Hloop. cbn [bind].
  rewrite app_nil_r. unfold render_by_position.
  replace positions with (k + (positions - k))%nat at 1 by lia.
  rewrite seq_app, omap_append.
  rewrite (omap_position_beyond use_and n k Hlt (positions - k) (0 + k))
    by lia.
  now rewrite app_nil_r.
Qed.

Lemma integer_string_within_MAX (n : Z) (use_and : bool) :
  n <> 0 -> Z.abs n <= MAX ->
  integer_string n use_and = Ok (render_by_position use_and n).
Proof.
  intros Hne Hmax. unfold integer_string. zfalse (n =? 0).
  apply integer_string_body_within_MAX; assumption.
Qed.

(** The renderer returns a phrase for every number of magnitude at most
    [MAX]. *)
Lemma integer_string_total (n : Z) (use_and : bool) :
  Z.abs n <= MAX -> is_Ok (integer_string n use_and).
Proof.
  intros Hmax. destruct (Z.eq_dec n 0) as [->|Hne].
  - exists "zero". vm_compute. reflexivity.
  - eexists. apply integer_string_within_MAX; assumption.
Qed.

Lemma position_phrase_opp (use_and : bool) (n : Z) (i : nat) :
  position_phrase use_and (- n) i = position_phrase use_and n i.
Proof. unfold position_phrase, chunk_at. rewrite Z.abs_opp. reflexivity. Qed.

Lemma render_by_position_opp (use_and : bool) (n : Z) :
  0 < n ->
  render_by_position use_and (- n) =
  "minus " +:+ render_by_position use_and n.
Proof.
  intros Hn. unfold render_by_position.
  ztrue (- n <? 0). zfalse (n <? 0).
  rewrite (omap_pointwise (position_phrase use_and (- n))
             (position_phrase use_and n))
    by (intros; apply position_phrase_opp).
  generalize (String.concat ", "
                (rev (omap (position_phrase use_and n) (seq 0 positions)))).
  intros phrase. cbv iota.
  change ("minus " +:+ phrase = "minus " +:+ phrase). reflexivity.
Qed.

(** ** The renderer beyond [MAX] *)

Lemma for_chunks_app (use_and : bool) (l1 l2 : list Z) :
  forall i acc,
    for_chunks use_and i (l1 ++ l2) acc =
    do acc' <- for_chunks use_and i l1 acc in
    for_chunks use_and (i + Z.of_nat (length l1)) l2 acc'.
Proof.
  induction l1 as [|c l1 IH]; intros i acc.
  - cbn [app for_chunks bind length]. now rewrite Z.add_0_r.
  - rewrite <- app_comm_cons. cbn [for_chunks length].
    replace (i + Z.of_nat (S (length l1)))
      with (i + 1 + Z.of_nat (length l1)) by lia.
    destruct (c =? 0); [apply IH|].
    destruct (chunk_phrase use_and i c) as [phrase| |]; cbn [bind];
      [apply IH | reflexivity | reflexivity].
Qed.

(** Past the last position a non-zero chunk has no scale word. *)
Lemma chunk_phrase_beyond (use_and : bool) (i : nat) (chunk : Z) :
  (positions <= i)%nat -> 1 <= chunk <= 999 ->
  chunk_phrase use_and (Z.of_nat i) chunk = Raise IndexError.
Proof.
  intros Hi Hc. unfold chunk_phrase. rewrite chunk_words_scale.
  destruct (chunk_words_name use_and chunk Hc) as (ws & -> & _).
  cbn [bind]. unfold add_scale. unfold positions in Hi.
  zfalse (Z.of_nat i =? 1). ztrue (1 <? Z.of_nat i).
  replace (Z.of_nat i - 2) with (Z.of_nat (i - 2)) by lia.
  rewrite tuple_getitem_beyond by lia. reflexivity.
Qed.

Lemma for_chunks_beyond (use_and : bool) (chunks : list Z) :
  forall i acc,
    (positions <= i)%nat ->
    Forall (fun c => 0 <= c <= 999) chunks ->
    Exists (fun c => c <> 0) chunks ->
    for_chunks use_and (Z.of_nat i) chunks acc = Raise IndexError.
Proof.
  induction chunks as [|c chunks IH]; intros i acc Hi Hall Hex.
  - inversion Hex.
  - cbn [for_chunks]. replace (Z.of_nat i + 1) with (Z.of_nat (S i)) by lia.
    apply Forall_cons in Hall as [Hc Hall].
    destruct (c =? 0) eqn:E.
    + apply Z.eqb_eq in E. apply IH; [lia | assumption |].
      inversion Hex; subst; [contradiction | assumption].
    + apply Z.eqb_neq in E.
      now rewrite chunk_phrase_beyond by (assumption || lia).
Qed.

(** The chunk at the last position of a number is not zero. *)
Lemma top_chunk_nonzero (n : Z) (k : nat) :
  0 < Z.abs n -> Z.abs n < 1000 ^ Z.of_nat k ->
  1000 ^ (Z.of_nat k - 1) <= Z.abs n ->
  (0 < k)%nat /\ chunk_at n (k - 1) <> 0.
Proof.
  intros Hpos Hlt Hge. destruct k as [|k].
  - change (1000 ^ Z.of_nat 0) with 1 in Hlt. lia.
  - split; [lia|]. replace (S k - 1)%nat with k by lia.
    replace (Z.of_nat (S k) - 1) with (Z.of_nat k) in Hge by lia.
    rewrite pow_1000_succ in Hlt. pose proof (pow_1000_pos k) as Hp.
    unfold chunk_at.
    assert (1 <= Z.abs n / 1000 ^ Z.of_nat k < 1000).
    { split.
      - apply Z.div_le_lower_bound; lia.
      - apply Z.div_lt_upper_bound; lia. }
    rewrite Z.mod_small by lia. lia.
Qed.

(** Beyond [MAX] the renderer raises [IndexError]. *)
Lemma integer_string_beyond_MAX (n : Z) (use_and : bool) :
  MAX < Z.abs n -> integer_string n use_and = Raise IndexError.
Proof.
  intros Hmax. pose proof MAX_bound as HM. pose proof (pow_1000_pos positions).
  unfold integer_string. zfalse (n =? 0). unfold integer_string_body.
  destruct (chunks_of_abs n) as (k & Hk & Hlt & _ & Hge). rewrite Hk.
  specialize (Hge ltac:(lia)).
  pose proof (chunk_count_beyond_MAX n k Hmax Hlt) as Hk34.
  destruct (top_chunk_nonzero n k ltac:(lia) Hlt Hge) as [_ Htop].
  replace k with (positions + (k - positions))%nat at 1 by lia.
  rewrite seq_app, map_app, for_chunks_app.
  pose proof (for_chunks_positions use_and n positions 0 [] ltac:(lia))
    as Hloop.
  change (Z.of_nat 0) with 0 in Hloop. rewrite Hloop. cbn [bind].
  rewrite length_map, length_seq.
  change (0 + Z.of_nat positions) with (Z.of_nat positions).
  rewrite for_chunks_beyond; [reflexivity | lia | |].
  - apply Forall_forall. intros c Hc. apply list_elem_of_In in Hc.
    apply in_map_iff in Hc as (i & <- & _). apply chunk_at_range.
  - apply Exists_exists. exists (chunk_at n (k - 1)). split; [|exact Htop].
    apply list_elem_of_In, in_map, in_seq. lia.
Qed.

(** The renderer on any integer: a phrase up to [MAX], [IndexError]
    beyond; in particular the chunking loop always ends. *)
Lemma integer_string_outcome (n : Z) (use_and : bool) :
  (Z.abs n <= MAX /\ is_Ok (integer_string n use_and)) \/
  (MAX < Z.abs n /\ integer_string n use_and = Raise IndexError).
Proof.
  destruct (Z_le_gt_dec (Z.abs n) MAX) as [Hle|Hgt].
  - left. split; [exact Hle | now apply integer_string_total].
  - right. split; [lia | apply integer_string_beyond_MAX; lia].
Qed.

Lemma MAX_nonneg : 0 <= MAX.
Proof. apply Z.leb_le. now vm_compute. Qed.

(** ** Scale words and the conjunction *)

Lemma scale_roots_not_and :
  forallb (fun root => negb (String.eqb (root +:+ "illion") "and")) ILLIONS
  = true.
Proof. now vm_compute. Qed.

(** The scale word of a position is one word at most, and never the
    conjunction. *)
Lemma add_scale_app (i : nat) (words : list string) :
  (i < positions)%nat ->
  exists scale,
    add_scale (Z.of_nat i) words = Ok (words ++ scale) /\ "and" ∉ scale.
Proof.
  intros Hi. unfold add_scale. destruct i as [|[|k]].
  - exists []. split; [now rewrite app_nil_r | apply not_elem_of_nil].
  - exists ["thousand"]. split; [reflexivity|].
    intros H. apply list_elem_of_singleton in H. discriminate.
  - assert (Hk : (k < length ILLIONS)%nat) by (unfold positions in Hi; lia).
    destruct (lookup_lt_is_Some_2 ILLIONS k Hk) as [root Hroot].
    zfalse (Z.of_nat (S (S k)) =? 1). ztrue (1 <? Z.of_nat (S (S k))).
    replace (Z.of_nat (S (S k)) - 2) with (Z.of_nat k) by lia.
    rewrite (tuple_getitem_lookup _ _ _ Hroot). cbn [bind].
    exists [root +:+ "illion"]. split; [reflexivity|].
    intros H. apply list_elem_of_singleton in H.
    pose proof scale_roots_not_and as Hall.
    rewrite forallb_forall in Hall.
    specialize (Hall root).
    rewrite <- list_elem_of_In in Hall.
    specialize (Hall (list_elem_of_lookup_2 _ _ _ Hroot)).
    rewrite <- H in Hall. now rewrite String.eqb_refl in Hall.
Qed.

(** A scale word is never what makes a lookup in a dictionary fail. *)
Lemma add_scale_no_KeyError (chunk_index : Z) (words : list string) :
  add_scale chunk_index words <> Raise KeyError.
Proof.
  unfold add_scale, tuple_getitem.
  destruct (chunk_index =? 1); [discriminate|].
  destruct (1 <? chunk_index); [|discriminate].
  match goal with |- context [if ?c then _ else _] => destruct c end;
    [discriminate|].
  match goal with |- context [?t !! ?j] => destruct (t !! j) end;
    discriminate.
Qed.

Lemma and_checked (use_and : bool) (chunk : Z) :
  1 <= chunk <= 999 -> and_placed use_and chunk = true.
Proof.
  intros H. destruct use_and.
  - apply (forallb_seqZ (and_placed true) 1 999); [now vm_compute | lia].
  - apply (forallb_seqZ (and_placed false) 1 999); [now vm_compute | lia].
Qed.

Lemma small_number_checked (n : Z) :
  1 <= n <= 999 -> small_number_plain n = true.
Proof.
  intros H.
  apply (forallb_seqZ small_number_plain 1 999); [now vm_compute | lia].
Qed.

Lemma remainder_checked (r : Z) :
  0 <= r <= 99 -> remainder_lookup_ok r = true.
Proof.
  intros H.
  apply (forallb_seqZ remainder_lookup_ok 0 100); [now vm_compute | lia].
Qed.

Lemma digit_remainder_checked (use_and : bool) (r : Z) :
  1 <= r <= 9 -> digit_remainder_ok use_and r = true.
Proof.
  intros H. destruct use_and.
  - apply (forallb_seqZ (digit_remainder_ok true) 1 9); [now vm_compute | lia].
  - apply (forallb_seqZ (digit_remainder_ok false) 1 9); [now vm_compute | lia].
Qed.

Lemma chunk_words_zero (use_and : bool) : chunk_words use_and 0 0 = Ok [].
Proof. destruct use_and; now vm_compute. Qed.

(** * The integer renderer *)

(** C7: [integer_string(0)] is exactly the digit word zero, returned by the
    guard on the first line of the renderer; the code past the guard would
    find no chunk in 0 and return the empty phrase. *)
Theorem integer_string_zero (use_and : bool) :
  integer_string 0 use_and = Ok "zero" /\
  dict_getitem DIGIT_NAMES 0 = Ok "zero" /\
  last_to_first_digit (digit_budget 0) 0 1000 = Some [] /\
  integer_string_body 0 use_and = Ok "".
Proof. destruct use_and; vm_compute; repeat split. Qed.

(** C10: for a chunk from 0 to 999 no dictionary lookup of the loop body
    fails.  A remainder from 1 to 9 is in the merged table and is named by
    its bare digit word (105 is one hundred and five); the hyphenated
    branch is taken exactly by the remainders from 21 to 99 that are not
    multiples of ten, and there the tens key is a multiple of ten from 20
    to 90 and the units key is a digit. *)
Theorem chunk_lookups_succeed (use_and : bool) (chunk_index chunk : Z) :
  0 <= chunk <= 999 ->
  chunk_words use_and chunk_index chunk <> Raise KeyError /\
  (1 <= chunk mod 100 <= 9 ->
     exists w,
       DIGIT_NAMES !! (chunk mod 100) = Some w /\
       UNIQUE_NUMBER_NAMES !! (chunk mod 100) = Some w /\
       chunk_words use_and 0 (chunk mod 100) = Ok [w]) /\
  (dict_contains UNIQUE_NUMBER_NAMES (chunk mod 100) = false <->
     21 <= chunk mod 100 <= 99 /\ (chunk mod 100) mod 10 <> 0) /\
  (dict_contains UNIQUE_NUMBER_NAMES (chunk mod 100) = false ->
     20 <= chunk mod 100 - (chunk mod 100) mod 10 <= 90 /\
     (chunk mod 100 - (chunk mod 100) mod 10) mod 10 = 0 /\
     is_Some (NUMBER_NAMES !! (chunk mod 100 - (chunk mod 100) mod 10)) /\
     is_Some (DIGIT_NAMES !! ((chunk mod 100) mod 10))) /\
  integer_string 105 true = Ok "one hundred and five".
Proof.
  intros Hc.
  pose proof (Z.mod_pos_bound chunk 100 ltac:(lia)) as Hr.
  set (r := chunk mod 100) in *.
  pose proof (remainder_checked r ltac:(lia)) as Hrem.
  unfold remainder_lookup_ok in Hrem.
  split; [|split; [|split; [|split]]].
  - rewrite chunk_words_scale.
    destruct (Z.eq_dec chunk 0) as [->|Hne].
    + rewrite chunk_words_zero. cbn [bind]. apply add_scale_no_KeyError.
    + destruct (chunk_words_name use_and chunk ltac:(lia)) as (ws & -> & _).
      cbn [bind]. apply add_scale_no_KeyError.
  - intros Hd. pose proof (digit_remainder_checked use_and r Hd) as Hdig.
    unfold digit_remainder_ok in Hdig.
    destruct (DIGIT_NAMES !! r) as [w|] eqn:Ew; [|discriminate].
    destruct (chunk_words use_and 0 r) as [[|w' [|? ?]]| |];
      try discriminate.
    apply bool_decide_eq_true in Hdig. subst w'.
    exists w. repeat split.
    destruct (dict_contains UNIQUE_NUMBER_NAMES r).
    + apply andb_true_iff in Hrem as [_ Himp].
      assert (E : (1 <=? r) && (r <=? 9) = true)
        by (apply andb_true_iff; split; apply Z.leb_le; lia).
      rewrite E in Himp. cbn [implb] in Himp.
      apply bool_decide_eq_true in Himp. congruence.
    + repeat (apply andb_true_iff in Hrem as [Hrem ?]).
      apply Z.leb_le in Hrem. lia.
  - destruct (dict_contains UNIQUE_NUMBER_NAMES r).
    + apply andb_true_iff in Hrem as [Hrem _].
      apply negb_true_iff, andb_false_iff in Hrem.
      split; [discriminate|]. intros [H1 H2].
      destruct Hrem as [Hrem|Hrem].
      * apply Z.leb_gt in Hrem. lia.
      * apply negb_false_iff, Z.eqb_eq in Hrem. lia.
    + repeat (apply andb_true_iff in Hrem as [Hrem ?]).
      repeat match goal with
             | H : negb _ = true |- _ => apply negb_true_iff, Z.eqb_neq in H
             | H : (_ <=? _) = true |- _ => apply Z.leb_le in H
             end.
      split; [intros _; lia | reflexivity].
  - intros Hno. rewrite Hno in Hrem.
    repeat (apply andb_true_iff in Hrem as [Hrem ?]).
    repeat match goal with
           | H : bool_decide _ = true |- _ => apply bool_decide_eq_true in H
           | H : (_ =? _) = true |- _ => apply Z.eqb_eq in H
           | H : (_ <=? _) = true |- _ => apply Z.leb_le in H
           end.
    repeat split; assumption || lia.
  - now vm_compute.
Qed.

Lemma chunk_lookups_succeed_witness :
  0 <= 105 <= 999 /\
  chunk_words true 0 105 <> Raise KeyError.
Proof.
  split; [lia|].
  apply (chunk_lookups_succeed true 0 105). lia.
Defined.

(** C5: 1234 reads one thousand, two hundred and thirty-four with the
    conjunction flag set and one thousand, two hundred thirty-four without
    it.  In the words of any chunk, the conjunction is present exactly when
    the flag is set and both the hundreds digit and the remainder are not
    zero, and then it stands between the hundreds words and the phrase of
    the remainder. *)
Theorem conjunction_rule (use_and : bool) (i : nat) (chunk : Z) :
  (i < positions)%nat -> 1 <= chunk <= 999 ->
  integer_string 1234 true = Ok "one thousand, two hundred and thirty-four" /\
  integer_string 1234 false = Ok "one thousand, two hundred thirty-four" /\
  exists words,
    chunk_words use_and (Z.of_nat i) chunk = Ok words /\
    ("and" ∈ words <->
       use_and = true /\ chunk / 100 <> 0 /\ chunk mod 100 <> 0) /\
    (use_and = true -> chunk / 100 <> 0 -> chunk mod 100 <> 0 ->
       exists h t scale,
         DIGIT_NAMES !! (chunk / 100) = Some h /\
         chunk_words use_and 0 (chunk mod 100) = Ok [t] /\
         words = [h; "hundred"; "and"; t] ++ scale).
Proof.
  intros Hi Hc.
  split; [now vm_compute|]. split; [now vm_compute|].
  pose proof (and_checked use_and chunk Hc) as Hand.
  unfold and_placed in Hand. rewrite chunk_words_scale.
  destruct (chunk_words use_and 0 chunk) as [ws| |]; try discriminate.
  cbn [bind]. destruct (add_scale_app i ws Hi) as (scale & -> & Hscale).
  exists (ws ++ scale). split; [reflexivity|].
  destruct (use_and && negb (chunk / 100 =? 0) && negb (chunk mod 100 =? 0))
    eqn:E.
  - apply andb_true_iff in E as [E Er]. apply andb_true_iff in E as [Eb Eh].
    apply negb_true_iff, Z.eqb_neq in Er, Eh.
    destruct (DIGIT_NAMES !! (chunk / 100)) as [h|]; [|discriminate].
    destruct (chunk_words use_and 0 (chunk mod 100)) as [[|t [|? ?]]| |];
      try discriminate.
    apply bool_decide_eq_true in Hand. subst ws. split.
    + split; [intros _; now repeat split|]. intros _.
      apply elem_of_app. left.
      apply elem_of_cons. right. apply elem_of_cons. right.
      apply elem_of_cons. now left.
    + intros _ _ _. exists h, t, scale. now repeat split.
  - apply bool_decide_eq_true in Hand. split.
    + split.
      * intros Hin. apply elem_of_app in Hin as [Hin|Hin]; contradiction.
      * intros (-> & Hh & Hr). exfalso.
        apply Z.eqb_neq in Hh, Hr. rewrite Hh, Hr in E. discriminate.
    + intros -> Hh Hr. exfalso.
      apply Z.eqb_neq in Hh, Hr. rewrite Hh, Hr in E. discriminate.
Qed.

Lemma conjunction_rule_witness :
  (2 < positions)%nat /\ 1 <= 234 <= 999 /\
  exists words,
    chunk_words true (Z.of_nat 2) 234 = Ok words /\
    ("and" ∈ words <-> true = true /\ 234 / 100 <> 0 /\ 234 mod 100 <> 0) /\
    (true = true -> 234 / 100 <> 0 -> 234 mod 100 <> 0 ->
       exists h t scale,
         DIGIT_NAMES !! (234 / 100) = Some h /\
         chunk_words true 0 (234 mod 100) = Ok [t] /\
         words = [h; "hundred"; "and"; t] ++ scale).
Proof.
  assert (Hp : (2 < positions)%nat) by (vm_compute; lia).
  assert (Hc : 1 <= 234 <= 999) by lia.
  split; [exact Hp|]. split; [exact Hc|].
  exact (proj2 (proj2 (conjunction_rule true 2 234 Hp Hc))).
Defined.

(** C4: for n from 1 to 999 the phrase of [integer_string(n)], with the
    default conjunction setting, has no comma and contains no scale word;
    for n from 21 to 99 not a multiple of ten it has exactly one hyphen,
    which joins the word of the tens table for the tens to the word of the
    digit table for the units. *)
Theorem small_numbers_plain (n : Z) :
  1 <= n <= 999 ->
  exists phrase,
    integer_string n true = Ok phrase /\
    count_char "," phrase = 0%nat /\
    (forall w, w ∈ scale_words -> is_substring w phrase = false) /\
    (21 <= n <= 99 -> n mod 10 <> 0 ->
       count_char "-" phrase = 1%nat /\
       exists tens_word digit_word,
         NUMBER_NAMES !! (n - n mod 10) = Some tens_word /\
         DIGIT_NAMES !! (n mod 10) = Some digit_word /\
         phrase = tens_word +:+ "-" +:+ digit_word).
Proof.
  intros Hn. pose proof (small_number_checked n Hn) as Hchk.
  unfold small_number_plain in Hchk.
  destruct (integer_string n true) as [phrase| |]; try discriminate.
  apply andb_true_iff in Hchk as [Hchk Hcompound].
  apply andb_true_iff in Hchk as [Hcomma Hscale].
  apply bool_decide_eq_true in Hcomma.
  exists phrase. split; [reflexivity|]. split; [exact Hcomma|]. split.
  - intros w Hw. rewrite forallb_forall in Hscale.
    apply list_elem_of_In in Hw. specialize (Hscale w Hw).
    now apply negb_true_iff in Hscale.
  - intros Hrange Hmod.
    assert (E : (21 <=? n) && (n <=? 99) && negb (n mod 10 =? 0) = true).
    { repeat (apply andb_true_iff; split);
        [apply Z.leb_le; lia | apply Z.leb_le; lia |].
      apply negb_true_iff, Z.eqb_neq. exact Hmod. }
    rewrite E in Hcompound.
    apply andb_true_iff in Hcompound as [Hhyphen Hwords].
    apply bool_decide_eq_true in Hhyphen. split; [exact Hhyphen|].
    destruct (NUMBER_NAMES !! (n - n mod 10)) as [tw|]; [|discriminate].
    destruct (DIGIT_NAMES !! (n mod 10)) as [dw|]; [|discriminate].
    apply bool_decide_eq_true in Hwords. now exists tw, dw.
Qed.

Lemma small_numbers_plain_witness :
  1 <= 34 <= 999 /\
  exists phrase,
    integer_string 34 true = Ok phrase /\
    count_char "," phrase = 0%nat /\
    (forall w, w ∈ scale_words -> is_substring w phrase = false) /\
    (21 <= 34 <= 99 -> 34 mod 10 <> 0 ->
       count_char "-" phrase = 1%nat /\
       exists tens_word digit_word,
         NUMBER_NAMES !! (34 - 34 mod 10) = Some tens_word /\
         DIGIT_NAMES !! (34 mod 10) = Some digit_word /\
         phrase = tens_word +:+ "-" +:+ digit_word).
Proof.
  assert (H : 1 <= 34 <= 999) by lia.
  split; [exact H|]. exact (small_numbers_plain 34 H).
Defined.

(** C6: for every n with 0 < n <= MAX, [integer_string(-n)] is the text
    minus, a space, and then [integer_string(n)]. *)
Theorem integer_string_negative (n : Z) (use_and : bool) :
  0 < n <= MAX ->
  exists phrase,
    integer_string n use_and = Ok phrase /\
    integer_string (- n) use_and = Ok ("minus " +:+ phrase).
Proof.
  intros [Hpos Hmax]. exists (render_by_position use_and n). split.
  - apply integer_string_within_MAX; lia.
  - rewrite <- render_by_position_opp by assumption.
    apply integer_string_within_MAX; lia.
Qed.

Lemma integer_string_negative_witness :
  0 < 12 <= MAX /\
  exists phrase,
    integer_string 12 true = Ok phrase /\
    integer_string (- 12) true = Ok ("minus " +:+ phrase).
Proof.
  assert (H : 0 < 12 <= MAX).
  { split; [lia|]. apply Z.leb_le. vm_compute. reflexivity. }
  split; [exact H|]. exact (integer_string_negative 12 true H).
Defined.

(** C8: [MAX] is ten to the power three times the number of scale roots
    plus two, less one.  [integer_string(MAX)] returns a phrase; for every
    n of magnitude at most [MAX] the renderer returns a phrase, and every
    position from 2 on in its chunk list indexes [ILLIONS] within bounds;
    [integer_string(MAX + 1)] raises [IndexError]. *)
Theorem MAX_is_the_boundary (n : Z) (use_and : bool) :
  MAX = 10 ^ (3 * (Z.of_nat (length ILLIONS) + 2)) - 1 /\
  is_Ok (integer_string MAX use_and) /\
  (Z.abs n <= MAX ->
     is_Ok (integer_string n use_and) /\
     exists chunks,
       last_to_first_digit (digit_budget (Z.abs n)) (Z.abs n) 1000
         = Some chunks /\
       forall (i : nat) (chunk : Z),
         chunks !! i = Some chunk -> (2 <= i)%nat ->
         0 <= Z.of_nat i - 2 < Z.of_nat (length ILLIONS) /\
         is_Ok (tuple_getitem ILLIONS (Z.of_nat i - 2))) /\
  integer_string (MAX + 1) use_and = Raise IndexError.
Proof.
  split; [now vm_compute|]. split; [|split].
  - apply integer_string_total. pose proof MAX_nonneg. lia.
  - intros Hmax. split; [now apply integer_string_total|].
    destruct (chunks_of_abs n) as (k & Hk & Hlt & Hz & Hge).
    pose proof (chunk_count_within_MAX n k Hmax Hz Hge) as Hle.
    exists (map (chunk_at n) (seq 0 k)). split; [exact Hk|].
    intros i chunk Hlook Hi.
    apply lookup_lt_Some in Hlook.
    rewrite length_map, length_seq in Hlook.
    assert (Hidx : (i - 2 < length ILLIONS)%nat)
      by (unfold positions in Hle; lia).
    split; [lia|].
    destruct (lookup_lt_is_Some_2 ILLIONS (i - 2) Hidx) as [root Hroot].
    exists root. replace (Z.of_nat i - 2) with (Z.of_nat (i - 2)) by lia.
    now apply tuple_getitem_lookup.
  - destruct use_and; now vm_compute.
Qed.

Lemma MAX_is_the_boundary_witness :
  Z.abs 1234567 <= MAX /\ is_Ok (integer_string 1234567 true).
Proof.
  assert (H : Z.abs 1234567 <= MAX).
  { apply Z.leb_le. vm_compute. reflexivity. }
  split; [exact H|].
  exact (proj1 (proj1 (proj2 (proj2 (MAX_is_the_boundary 1234567 true))) H)).
Defined.

(** C3: for every n with 0 < |n| <= MAX, [integer_string(n)] is the
    sign followed by the phrases of the non-zero base-1000 chunks of |n|,
    most significant first, joined by a comma and a space; a zero chunk
    adds nothing.  The phrase of a chunk is the renderer's phrase of the
    chunk value itself followed by the scale word of its position: none
    at position 0, thousand at position 1, and at position i+2 the i-th
    scale root followed by illion.  So 1000000 is one million and
    2000000000 is two billion. *)
Theorem integer_string_by_position (n : Z) (use_and : bool) :
  0 < Z.abs n <= MAX ->
  integer_string n use_and = Ok (render_by_position use_and n) /\
  (forall chunk, 1 <= chunk <= 999 ->
     integer_string chunk use_and = Ok (chunk_name use_and chunk)) /\
  (forall i, chunk_at n i = 0 -> position_phrase use_and n i = None) /\
  scale_suffix 0 = "" /\
  scale_suffix 1 = " thousand" /\
  (forall i root, ILLIONS !! i = Some root ->
     scale_suffix (S (S i)) = " " +:+ root +:+ "illion") /\
  integer_string 1000000 true = Ok "one million" /\
  integer_string 2000000000 true = Ok "two billion".
Proof.
  intros [Hpos Hmax].
  split; [apply integer_string_within_MAX; lia|].
  split.
  { intros chunk Hc.
    destruct (chunk_words_name use_and chunk Hc) as (ws & _ & _ & -> & ->).
    reflexivity. }
  split; [intros i Hi; unfold position_phrase; now rewrite Hi|].
  split; [reflexivity|]. split; [reflexivity|].
  split; [intros i root Hroot; unfold scale_suffix; now rewrite Hroot|].
  split; now vm_compute.
Qed.

Lemma integer_string_by_position_witness :
  0 < Z.abs (- 1002003) <= MAX /\
  integer_string (- 1002003) true = Ok (render_by_position true (- 1002003)).
Proof.
  assert (H : 0 < Z.abs (- 1002003) <= MAX).
  { split; [reflexivity|]. apply Z.leb_le. vm_compute. reflexivity. }
  split; [exact H|].
  exact (proj1 (integer_string_by_position (- 1002003) true H)).
Defined.

(** * Regular expressions *)

Lemma append_eq_empty (a b : string) : a +:+ b = "" -> a = "" /\ b = "".
Proof. destruct a; [now split | discriminate]. Qed.

Lemma nullable_lang (r : re) : nullable r = true -> lang r "".
Proof.
  induction r as [| |p|r1 IH1 r2 IH2|r1 IH1 r2 IH2|r IH]; cbn [nullable];
    intros H; try discriminate.
  - constructor.
  - apply orb_true_iff in H as [H|H];
      [apply lang_alt_l | apply lang_alt_r]; auto.
  - apply andb_true_iff in H as [H1 H2].
    change "" with ("" +:+ ""). apply lang_seq; auto.
  - constructor.
Qed.

Lemma lang_nullable (r : re) (s : string) :
  lang r s -> s = "" -> nullable r = true.
Proof.
  induction 1 as [|p c Hp|r1 r2 s H IH|r1 r2 s H IH
                  |r1 r2 s1 s2 H1 IH1 H2 IH2| |r s1 s2 H1 IH1 H2 IH2];
    intros E; cbn [nullable]; try reflexivity; try discriminate.
  - now rewrite IH.
  - rewrite IH by assumption. apply orb_true_r.
  - apply append_eq_empty in E as [E1 E2]. now rewrite IH1, IH2.
Qed.

(** Reading one character of a string of the language leaves a string of
    the derivative. *)
Lemma deriv_complete (r : re) (cs : string) :
  lang r cs -> forall c s, cs = String c s -> lang (deriv c r) s.
Proof.
  induction 1 as [|p c' Hp|r1 r2 s' H IH|r1 r2 s' H IH
                  |r1 r2 s1 s2 H1 IH1 H2 IH2| |r s1 s2 H1 IH1 H2 IH2];
    intros c s E; cbn [deriv].
  - discriminate.
  - injection E as -> <-. rewrite Hp. constructor.
  - apply lang_alt_l. now apply IH.
  - apply lang_alt_r. now apply IH.
  - destruct s1 as [|c1 s1].
    + change ("" +:+ s2) with s2 in E.
      rewrite (lang_nullable r1 "" H1 eq_refl).
      apply lang_alt_r. now apply IH2.
    + rewrite append_cons in E. injection E as -> <-.
      assert (Hs : lang (Seq (deriv c r1) r2) (s1 +:+ s2))
        by (apply lang_seq; [now apply IH1 | assumption]).
      destruct (nullable r1); [now apply lang_alt_l | assumption].
  - discriminate.
  - destruct s1 as [|c1 s1].
    + change ("" +:+ s2) with s2 in E. now apply IH2.
    + rewrite append_cons in E. injection E as -> <-.
      apply lang_seq; [now apply IH1 | assumption].
Qed.

(** A string of the derivative, behind the character read, is a string of
    the language. *)
Lemma deriv_sound (c : ascii) (r : re) :
  forall s, lang (deriv c r) s -> lang r (String c s).
Proof.
  induction r as [| |p|r1 IH1 r2 IH2|r1 IH1 r2 IH2|r IH]; cbn [deriv];
    intros s H.
  - inversion H.
  - inversion H.
  - destruct (p c) eqn:Hp; inversion H; subst. now constructor.
  - inversion H; subst; [apply lang_alt_l | apply lang_alt_r]; auto.
  - assert (Hseq : forall t, lang (Seq (deriv c r1) r2) t ->
                             lang (Seq r1 r2) (String c t)).
    { intros t Ht. inversion Ht; subst.
      rewrite <- append_cons. apply lang_seq; auto. }
    destruct (nullable r1) eqn:Hn; [|now apply Hseq].
    inversion H; subst; [now apply Hseq|].
    change (String c s) with ("" +:+ String c s).
    apply lang_seq; [now apply nullable_lang | auto].
  - inversion H; subst.
    rewrite <- append_cons. apply lang_star_cons; auto.
Qed.

(** [fullmatch] decides membership in the language of the pattern. *)
Lemma fullmatch_lang (s : string) :
  forall r, fullmatch r s = true <-> lang r s.
Proof.
  induction s as [|c s IH]; intros r; cbn [fullmatch].
  - split; [apply nullable_lang | intros H; now apply (lang_nullable r "")].
  - rewrite IH. split; [apply deriv_sound|].
    intros H. now apply (deriv_complete r (String c s)).
Qed.

(** * Integer literals *)

Lemma all_chars_append (p : ascii -> bool) (a b : string) :
  all_chars p (a +:+ b) = all_chars p a && all_chars p b.
Proof.
  induction a as [|c a IH]; [reflexivity|].
  rewrite append_cons. cbn [all_chars]. now rewrite IH, andb_assoc.
Qed.

Lemma all_chars_weaken (p q : ascii -> bool) (s : string) :
  (forall c, p c = true -> q c = true) ->
  all_chars p s = true -> all_chars q s = true.
Proof.
  intros Hpq. induction s as [|c s IH]; [reflexivity|].
  cbn [all_chars]. intros H. apply andb_true_iff in H as [H1 H2].
  now rewrite (Hpq c H1), IH.
Qed.

Lemma concat_empty_cons (x : string) (xs : list string) :
  String.concat "" (x :: xs) = x +:+ String.concat "" xs.
Proof.
  destruct xs as [|y ys]; [symmetry; apply append_empty_r|].
  reflexivity.
Qed.

Lemma is_char_eq (d c : ascii) : is_char d c = true -> c = d.
Proof. apply Ascii.eqb_eq. Qed.

Lemma digit_group_cons (s : string) :
  digit_group s = true ->
  exists c r, s = String c r /\ is_digit c = true /\
              all_chars is_digit r = true.
Proof.
  destruct s as [|c r]; [discriminate|]. cbn [digit_group all_chars].
  intros H. apply andb_true_iff in H as [H1 H2]. now exists c, r.
Qed.

(** ** The strings [INT_PATTERN] matches *)

Lemma lang_star_class (p : ascii -> bool) (s : string) :
  lang (Star (Class p)) s <-> all_chars p s = true.
Proof.
  split.
  - intros H. remember (Star (Class p)) as r eqn:Er.
    induction H as [| | | | | |r s1 s2 H1 _ H2 IH2]; try discriminate;
      [reflexivity|].
    injection Er as ->. inversion H1; subst.
    rewrite append_cons. cbn [all_chars].
    apply andb_true_iff. split; [assumption | now apply IH2].
  - induction s as [|c s IH]; intros H; [constructor|].
    cbn [all_chars] in H. apply andb_true_iff in H as [H1 H2].
    change (String c s) with (String c "" +:+ s).
    apply lang_star_cons; [now constructor | auto].
Qed.

Lemma lang_plus_digits (s : string) :
  lang (Plus (Class is_digit)) s <-> digit_group s = true.
Proof.
  unfold Plus. split.
  - intros H. inversion H as [| | | |r1 r2 s1 s2 H1 H2| |]; subst.
    inversion H1; subst. rewrite append_cons.
    cbn [digit_group all_chars]. apply andb_true_iff.
    split; [assumption | now apply lang_star_class].
  - intros H. destruct (digit_group_cons s H) as (c & r & -> & Hc & Hr).
    change (String c r) with (String c "" +:+ r).
    apply lang_seq; [now constructor | now apply lang_star_class].
Qed.

Lemma lang_groups (s : string) :
  lang (Star (Seq (Class (is_char "_")) (Plus (Class is_digit)))) s <->
  exists groups,
    forallb digit_group groups = true /\
    s = String.concat "" (map (String "_") groups).
Proof.
  split.
  - intros H.
    remember (Star (Seq (Class (is_char "_")) (Plus (Class is_digit))))
      as r eqn:Er.
    induction H as [| | | | | |r s1 s2 H1 _ H2 IH2]; try discriminate.
    + now exists [].
    + injection Er as ->. destruct (IH2 eq_refl) as (groups & Hg & ->).
      inversion H1 as [| | | |r1 r2 u g Hu Hgr| |]; subst.
      inversion Hu; subst.
      match goal with H : is_char _ _ = true |- _ =>
        apply is_char_eq in H; subst end.
      apply lang_plus_digits in Hgr.
      exists (g :: groups). split.
      * cbn [forallb]. now rewrite Hgr, Hg.
      * rewrite map_cons, concat_empty_cons. reflexivity.
  - intros (groups & Hg & ->).
    induction groups as [|g groups IH]; [constructor|].
    cbn [forallb] in Hg. apply andb_true_iff in Hg as [Hg1 Hg2].
    rewrite map_cons, concat_empty_cons.
    apply lang_star_cons; [|now apply IH].
    change (String "_" g) with (String "_" "" +:+ g).
    apply lang_seq; [now constructor | now apply lang_plus_digits].
Qed.

(** [INT_REGEX] matches in full exactly the text 0 and the grouped
    literals whose first digit is not 0 and is followed by a digit. *)
Lemma INT_REGEX_matches (s : string) :
  fullmatch INT_REGEX s = true <->
  s = "0" \/
  exists first rest groups,
    is_nonzero_digit first = true /\ digit_group rest = true /\
    forallb digit_group groups = true /\
    s = grouped_literal first rest groups.
Proof.
  rewrite fullmatch_lang. unfold INT_REGEX, INT_PATTERN, grouped_literal.
  split.
  - intros H. inversion H as [| |ra rb sa Hzero|ra rb sa Hlit| | |]; subst.
    + inversion Hzero; subst. left.
      match goal with H : is_char _ _ = true |- _ =>
        apply is_char_eq in H; now subst end.
    + right. inversion Hlit as [| | | |rc rd sc sd Hfirst Htail| |]; subst.
      inversion Hfirst; subst.
      inversion Htail as [| | | |re rf se sf Hrest Hgroups| |]; subst.
      apply lang_plus_digits in Hrest.
      apply lang_groups in Hgroups as (groups & Hg & ->).
      match goal with c : ascii |- _ => exists c, se, groups end.
      repeat split; assumption.
  - intros [->|(first & rest & groups & Hf & Hr & Hg & ->)].
    + apply lang_alt_l. now constructor.
    + apply lang_alt_r. rewrite append_cons.
      change (String first (rest +:+ ?x)) with (String first "" +:+ rest +:+ x).
      apply lang_seq; [now constructor|].
      apply lang_seq; [now apply lang_plus_digits|].
      apply lang_groups. now exists groups.
Qed.

(** ** What [int()] makes of a literal *)

Lemma is_digit_range (c : ascii) :
  is_digit c = true <-> 48 <= char_code c <= 57.
Proof.
  unfold is_digit. rewrite andb_true_iff, !Z.leb_le. reflexivity.
Qed.

Lemma nonzero_digit_is_digit (c : ascii) :
  is_nonzero_digit c = true -> is_digit c = true.
Proof.
  unfold is_nonzero_digit. rewrite andb_true_iff, !Z.leb_le.
  intros H. apply is_digit_range. lia.
Qed.

Lemma digit_not_char (d c : ascii) :
  is_digit d = false -> is_digit c = true -> is_char d c = false.
Proof.
  intros Hd Hc. destruct (is_char d c) eqn:E; [|reflexivity].
  apply is_char_eq in E. congruence.
Qed.

Lemma digit_not_space (c : ascii) : is_digit c = true -> is_space c = false.
Proof.
  intros H. apply is_digit_range in H. unfold is_space.
  zfalse (char_code c =? 32). zfalse (char_code c <=? 13).
  now rewrite andb_false_r.
Qed.

Lemma literal_char_not_space (c : ascii) :
  literal_char c = true -> not_space c = true.
Proof.
  unfold literal_char, not_space. intros H.
  apply orb_true_iff in H as [H|H].
  - now rewrite digit_not_space.
  - apply is_char_eq in H. now subst.
Qed.

Lemma literal_char_not_point (c : ascii) :
  literal_char c = true -> not_point c = true.
Proof.
  unfold literal_char, not_point. intros H.
  destruct (Ascii.eqb c ".") eqn:E; [|reflexivity].
  apply Ascii.eqb_eq in E. subst. discriminate.
Qed.

Lemma lstrip_first (c : ascii) (r : string) :
  is_space c = false -> lstrip (String c r) = String c r.
Proof. intros H. cbn [lstrip]. now rewrite H. Qed.

Lemma rstrip_no_space (s : string) :
  all_chars not_space s = true -> rstrip s = s.
Proof.
  induction s as [|c s IH]; [reflexivity|].
  cbn [all_chars rstrip]. intros H. apply andb_true_iff in H as [Hc Hs].
  rewrite (IH Hs). unfold not_space in Hc. apply negb_true_iff in Hc.
  destruct s; [now rewrite Hc | reflexivity].
Qed.

Lemma decimal_from_append (a b : string) :
  forall acc, decimal_from acc (a +:+ b) = decimal_from (decimal_from acc a) b.
Proof.
  induction a as [|c a IH]; intros acc; [reflexivity|].
  rewrite append_cons. cbn [decimal_from]. apply IH.
Qed.

(** Reading a run of digits. *)
Lemma int_digits_run (ds rest : string) :
  all_chars is_digit ds = true ->
  forall acc after_digit,
    int_digits acc after_digit (ds +:+ rest) =
    int_digits (decimal_from acc ds)
               (match ds with EmptyString => after_digit | _ => true end)
               rest.
Proof.
  induction ds as [|c ds IH]; intros H acc b; [reflexivity|].
  cbn [all_chars] in H. apply andb_true_iff in H as [Hc Hds].
  rewrite append_cons. cbn [int_digits decimal_from]. rewrite Hc.
  rewrite (IH Hds). now destruct ds.
Qed.

(** Reading the groups that follow the first run. *)
Lemma int_digits_groups (groups : list string) :
  forallb digit_group groups = true ->
  forall acc,
    int_digits acc true (String.concat "" (map (String "_") groups)) =
    Some (decimal_from acc (String.concat "" groups)).
Proof.
  induction groups as [|g groups IH]; intros H acc; [reflexivity|].
  cbn [forallb] in H. apply andb_true_iff in H as [Hg Hgs].
  rewrite map_cons, !concat_empty_cons, append_cons, decimal_from_append.
  destruct (digit_group_cons g Hg) as (c & r & -> & Hc & Hr).
  cbn [int_digits].
  change (is_digit "_") with false. change (is_char "_" "_") with true.
  cbn [andb].
  rewrite int_digits_run by (cbn [all_chars]; now rewrite Hc, Hr).
  now apply IH.
Qed.

Lemma groups_literal_chars (groups : list string) :
  forallb digit_group groups = true ->
  all_chars literal_char (String.concat "" (map (String "_") groups)) = true.
Proof.
  induction groups as [|g groups IH]; intros H; [reflexivity|].
  cbn [forallb] in H. apply andb_true_iff in H as [Hg Hgs].
  rewrite map_cons, concat_empty_cons, append_cons. cbn [all_chars].
  rewrite all_chars_append, (IH Hgs), andb_true_r.
  change (literal_char "_") with true. cbn [andb].
  destruct (digit_group_cons g Hg) as (c & r & -> & Hc & Hr).
  apply (all_chars_weaken is_digit).
  - intros d Hd. unfold literal_char. now rewrite Hd.
  - cbn [all_chars]. now rewrite Hc, Hr.
Qed.

Lemma grouped_literal_chars (first : ascii) (rest : string)
    (groups : list string) :
  is_nonzero_digit first = true -> digit_group rest = true ->
  forallb digit_group groups = true ->
  all_chars literal_char (grouped_literal first rest groups) = true.
Proof.
  intros Hf Hr Hg. unfold grouped_literal.
  rewrite append_cons. cbn [all_chars].
  rewrite all_chars_append, (groups_literal_chars groups Hg), andb_true_r.
  apply andb_true_iff. split.
  - unfold literal_char. now rewrite (nonzero_digit_is_digit first Hf).
  - destruct (digit_group_cons rest Hr) as (c & r & -> & Hc & Hrr).
    apply (all_chars_weaken is_digit).
    + intros d Hd. unfold literal_char. now rewrite Hd.
    + cbn [all_chars]. now rewrite Hc, Hrr.
Qed.

(** ** The digit limit of [int()] *)

Lemma counted_digits_bound (s : string) :
  forall b k n, counted_digits b k s = Some n ->
    k <= n <= k + Z.of_nat (String.length s).
Proof.
  induction s as [|c s IH]; intros b k n; cbn [counted_digits String.length].
  - destruct b; [discriminate|]. intros E. injection E as <-. lia.
  - destruct (is_digit c).
    + intros E. apply IH in E. lia.
    + destruct (is_char "_" c).
      * destruct b; [discriminate|]. intros E. apply IH in E. lia.
      * destruct b; [discriminate|]. intros E. injection E as <-. lia.
Qed.

(** A digit part of at most [int_max_str_digits] characters is within the
    limit. *)
Lemma exceeds_digit_limit_short (s : string) :
  Z.of_nat (String.length s) <= int_max_str_digits ->
  exceeds_digit_limit s = false.
Proof.
  intros H. unfold exceeds_digit_limit.
  destruct (counted_digits true 0 s) as [n|] eqn:E; [|reflexivity].
  apply counted_digits_bound in E. apply Z.ltb_ge. lia.
Qed.

(** In a well-formed digit part every digit is counted. *)
Lemma counted_digits_literal (s : string) :
  forall acc a k n, int_digits acc a s = Some n ->
    counted_digits (negb a) k s = Some (k + digit_total s).
Proof.
  induction s as [|c s IH]; intros acc a k n;
    cbn [int_digits counted_digits digit_total].
  - destruct a; [|discriminate]. intros _. cbn [negb]. f_equal. lia.
  - destruct (is_digit c).
    + intros E. pose proof (IH _ true (k + 1) n E) as H.
      cbn [negb] in H. rewrite H. f_equal. lia.
    + destruct (is_char "_" c); cbn [andb]; [|discriminate].
      destruct a; [|discriminate]. cbn [negb]. intros E.
      pose proof (IH _ false k n E) as H.
      cbn [negb] in H. rewrite H. f_equal.
Qed.

Lemma exceeds_digit_limit_literal (s : string) (n : Z) :
  int_digits 0 false s = Some n ->
  exceeds_digit_limit s = (int_max_str_digits <? digit_total s).
Proof.
  intros E. unfold exceeds_digit_limit.
  pose proof (counted_digits_literal s 0 false 0 n E) as H.
  cbn [negb] in H. now rewrite H.
Qed.

Lemma digit_total_digits (s : string) :
  all_chars is_digit s = true -> digit_total s = Z.of_nat (String.length s).
Proof.
  induction s as [|c s IH]; [reflexivity|].
  cbn [all_chars digit_total String.length]. intros H.
  apply andb_true_iff in H as [Hc Hs]. rewrite Hc, (IH Hs). lia.
Qed.

(** An unsigned text with no white space that starts with a digit is read
    by its digit part alone. *)
Lemma py_int_unsigned (c : ascii) (r : string) :
  is_digit c = true -> all_chars not_space (String c r) = true ->
  py_int (String c r) =
  if exceeds_digit_limit (String c r)
  then Raise (ValueError ExceedsDigitLimit)
  else match int_digits 0 false (String c r) with
       | Some n => Ok n
       | None => Raise (ValueError InvalidLiteral)
       end.
Proof.
  intros Hc Hs. unfold py_int.
  rewrite (lstrip_first c r (digit_not_space c Hc)), (rstrip_no_space _ Hs).
  rewrite (digit_not_char "-" c eq_refl Hc), (digit_not_char "+" c eq_refl Hc).
  destruct (exceeds_digit_limit (String c r)); [reflexivity|].
  now destruct (int_digits 0 false (String c r)).
Qed.

(** The digit part of a grouped literal is well formed, and denotes the
    number of its digits. *)
Lemma int_digits_grouped (first : ascii) (rest : string)
    (groups : list string) :
  is_nonzero_digit first = true -> digit_group rest = true ->
  forallb digit_group groups = true ->
  int_digits 0 false (grouped_literal first rest groups) =
  Some (decimal_value (grouped_digits first rest groups)).
Proof.
  intros Hf Hr Hg.
  pose proof (nonzero_digit_is_digit first Hf) as Hd.
  unfold grouped_literal, grouped_digits, decimal_value.
  rewrite !append_cons.
  cbn [int_digits decimal_from]. rewrite Hd.
  destruct (digit_group_cons rest Hr) as (c & r & -> & Hc & Hrr).
  rewrite int_digits_run by (cbn [all_chars]; now rewrite Hc, Hrr).
  rewrite (int_digits_groups groups Hg), decimal_from_append. reflexivity.
Qed.

(** [int()] reads a grouped literal as the number its digits denote,
    unless the literal has more digits than the limit. *)
Lemma py_int_grouped (first : ascii) (rest : string) (groups : list string) :
  is_nonzero_digit first = true -> digit_group rest = true ->
  forallb digit_group groups = true ->
  py_int (grouped_literal first rest groups) =
  if int_max_str_digits <? digit_total (grouped_literal first rest groups)
  then Raise (ValueError ExceedsDigitLimit)
  else Ok (decimal_value (grouped_digits first rest groups)).
Proof.
  intros Hf Hr Hg.
  pose proof (grouped_literal_chars first rest groups Hf Hr Hg) as Hchars.
  pose proof (nonzero_digit_is_digit first Hf) as Hd.
  pose proof (int_digits_grouped first rest groups Hf Hr Hg) as Hint.
  rewrite <- (exceeds_digit_limit_literal _ _ Hint).
  revert Hchars Hint. unfold grouped_literal. rewrite append_cons.
  intros Hchars Hint.
  rewrite py_int_unsigned;
    [|assumption
     |now apply (all_chars_weaken literal_char not_space _
                   literal_char_not_space)].
  now rewrite Hint.
Qed.

(** [int()] returns, or raises one of its own two [ValueError]s. *)
Lemma py_int_outcome (s : string) :
  (exists n, py_int s = Ok n) \/
  py_int s = Raise (ValueError InvalidLiteral) \/
  py_int s = Raise (ValueError ExceedsDigitLimit).
Proof.
  unfold py_int.
  destruct (rstrip (lstrip s)) as [|c r].
  - destruct (exceeds_digit_limit ""); [now right; right|].
    destruct (int_digits 0 false ""); eauto.
  - destruct (is_char "-" c); [|destruct (is_char "+" c)];
      match goal with |- context [exceeds_digit_limit ?t] =>
        destruct (exceeds_digit_limit t) end;
      try (now right; right);
      match goal with |- context [int_digits ?a ?b ?t] =>
        destruct (int_digits a b t) end; eauto.
Qed.

(** Every string [INT_REGEX] matches is one [int()] accepts, unless it has
    more digits than the limit. *)
Lemma py_int_recognized (s : string) :
  fullmatch INT_REGEX s = true ->
  exists n,
    py_int s =
    if int_max_str_digits <? digit_total s
    then Raise (ValueError ExceedsDigitLimit) else Ok n.
Proof.
  intros H.
  apply INT_REGEX_matches in H
    as [->|(first & rest & groups & Hf & Hr & Hg & ->)].
  - exists 0. now vm_compute.
  - eexists. now apply py_int_grouped.
Qed.

(** [int()] of one character. *)
Lemma py_int_digit (c : ascii) :
  is_digit c = true -> py_int (String c "") = Ok (digit_value c).
Proof.
  intros Hc. rewrite py_int_unsigned; [|assumption|].
  - rewrite exceeds_digit_limit_short
      by (cbn [String.length]; now vm_compute).
    cbn [int_digits]. rewrite Hc. f_equal.
  - cbn [all_chars]. unfold not_space. now rewrite (digit_not_space c Hc).
Qed.

Lemma py_int_not_digit (c : ascii) :
  is_digit c = false ->
  py_int (String c "") = Raise (ValueError InvalidLiteral).
Proof.
  intros Hc. unfold py_int. cbn [lstrip].
  destruct (is_space c) eqn:Hs; [reflexivity|].
  cbn [rstrip]. rewrite Hs.
  destruct (is_char "-" c); [reflexivity|].
  destruct (is_char "+" c); [reflexivity|].
  unfold exceeds_digit_limit. cbn [counted_digits int_digits]. rewrite Hc.
  destruct (is_char "_" c); cbn [andb]; reflexivity.
Qed.

(** * The dispatcher *)

(** ** Splitting at the decimal point *)

Lemma split_no_point (s : string) :
  all_chars not_point s = true -> split "." s = [s].
Proof.
  induction s as [|c s IH]; [reflexivity|].
  cbn [all_chars split]. intros H. apply andb_true_iff in H as [Hc Hs].
  unfold not_point in Hc. apply negb_true_iff in Hc.
  now rewrite Hc, (IH Hs).
Qed.

(** A string [INT_REGEX] matches has no decimal point to split at. *)
Lemma recognized_no_split (s : string) :
  fullmatch INT_REGEX s = true -> split "." s = [s].
Proof.
  intros H.
  apply INT_REGEX_matches in H
    as [->|(first & rest & groups & Hf & Hr & Hg & ->)];
    [reflexivity|].
  apply split_no_point.
  apply (all_chars_weaken literal_char not_point _ literal_char_not_point).
  now apply grouped_literal_chars.
Qed.

Lemma splits_in_two_parts (v : pyvalue) :
  splits_in_two v = true ->
  exists integer points, split "." (py_str v) = [integer; points].
Proof.
  unfold splits_in_two.
  destruct (split "." (py_str v)) as [|a [|b [|c l]]]; try discriminate.
  intros _. now exists a, b.
Qed.

Lemma float_string_unsplit (v : pyvalue) :
  splits_in_two v = false ->
  float_string v = Raise (ValueError CannotParseAsFloat).
Proof.
  unfold splits_in_two, float_string.
  destruct (split "." (py_str v)) as [|a [|b [|c l]]];
    try reflexivity; discriminate.
Qed.

Lemma float_string_split (v : pyvalue) (integer points : string) :
  split "." (py_str v) = [integer; points] ->
  float_string v =
  do n <- py_int integer in
  do integer_part <- integer_string n true in
  do names <- point_names points in
  Ok (integer_part +:+ " point " +:+ String.concat " " names).
Proof. intros H. unfold float_string. now rewrite H. Qed.

(** ** Which exceptions the renderer can raise *)

Lemma no_ValueError_Ok {A} (a : A) : no_ValueError (Ok a).
Proof. intros why. discriminate. Qed.

Lemma no_ValueError_bind {A B} (m : outcome A) (f : A -> outcome B) :
  no_ValueError m -> (forall a, no_ValueError (f a)) ->
  no_ValueError (bind m f).
Proof.
  intros Hm Hf why. destruct m as [a|e|]; cbn [bind].
  - apply Hf.
  - intros E. injection E as ->. now apply (Hm why).
  - discriminate.
Qed.

Lemma no_ValueError_dict (d : gmap Z string) (k : Z) :
  no_ValueError (dict_getitem d k).
Proof. intros why. unfold dict_getitem. destruct (d !! k); discriminate. Qed.

Lemma no_ValueError_tuple (t : list string) (i : Z) :
  no_ValueError (tuple_getitem t i).
Proof.
  intros why. unfold tuple_getitem.
  match goal with |- context [if ?c then _ else _] => destruct c end;
    [discriminate|].
  match goal with |- context [?l !! ?j] => destruct (l !! j) end;
    discriminate.
Qed.

Ltac no_value_error :=
  repeat first
    [ apply no_ValueError_Ok
    | apply no_ValueError_dict
    | apply no_ValueError_tuple
    | apply no_ValueError_bind; [|intros ?]
    | match goal with
      | |- no_ValueError (if ?c then _ else _) => destruct c
      | |- no_ValueError (match ?x with (_, _) => _ end) => destruct x
      end ].

Lemma no_ValueError_chunk_phrase (use_and : bool) (chunk_index chunk : Z) :
  no_ValueError (chunk_phrase use_and chunk_index chunk).
Proof. unfold chunk_phrase, chunk_words. no_value_error. Qed.

Lemma no_ValueError_for_chunks (use_and : bool) (chunks : list Z) :
  forall chunk_index acc,
    no_ValueError (for_chunks use_and chunk_index chunks acc).
Proof.
  induction chunks as [|chunk chunks IH]; intros i acc; cbn [for_chunks].
  - apply no_ValueError_Ok.
  - destruct (chunk =? 0); [apply IH|].
    apply no_ValueError_bind; [apply no_ValueError_chunk_phrase|].
    intros phrase. apply IH.
Qed.

(** The integer renderer never raises [ValueError]. *)
Lemma no_ValueError_integer_string (n : Z) (use_and : bool) :
  no_ValueError (integer_string n use_and).
Proof.
  unfold integer_string. destruct (n =? 0); [apply no_ValueError_dict|].
  unfold integer_string_body.
  match goal with |- context [last_to_first_digit ?f ?m ?b] =>
    destruct (last_to_first_digit f m b) end.
  - apply no_ValueError_bind; [apply no_ValueError_for_chunks|].
    intros ws. apply no_ValueError_Ok.
  - intros why. discriminate.
Qed.

Lemma no_ValueError_not_is (A : Type) (m : outcome A) :
  no_ValueError m -> ~ is_ValueError m.
Proof. intros H [why E]. exact (H why E). Qed.

(** ** The words after the point *)

Lemma digit_keys_present :
  forallb (fun d => bool_decide (is_Some (DIGIT_NAMES !! d))) (seqZ 0 10)
  = true.
Proof. now vm_compute. Qed.

Lemma digit_word_lookup (c : ascii) :
  is_digit c = true ->
  0 <= digit_value c <= 9 /\
  dict_getitem DIGIT_NAMES (digit_value c) = Ok (digit_word c).
Proof.
  intros H. apply is_digit_range in H.
  assert (Hr : 0 <= digit_value c <= 9) by (unfold digit_value; lia).
  split; [exact Hr|].
  pose proof (forallb_seqZ _ 0 10 digit_keys_present (digit_value c)
                ltac:(lia)) as Hk.
  apply bool_decide_eq_true in Hk. destruct Hk as [w Hw].
  unfold dict_getitem, digit_word. now rewrite Hw.
Qed.

(** Digits after the point are each named by their own word. *)
Lemma point_names_digits (points : string) :
  all_chars is_digit points = true ->
  point_names points = Ok (map digit_word (list_ascii_of_string points)).
Proof.
  induction points as [|c points IH]; [reflexivity|].
  cbn [all_chars point_names list_ascii_of_string map]. intros H.
  apply andb_true_iff in H as [Hc Hp].
  rewrite (py_int_digit c Hc). cbn [bind].
  rewrite (proj2 (digit_word_lookup c Hc)). cbn [bind].
  now rewrite (IH Hp).
Qed.

(** Anything else after the point is refused by [int()]. *)
Lemma point_names_not_digits (points : string) :
  all_chars is_digit points = false ->
  point_names points = Raise (ValueError InvalidLiteral).
Proof.
  induction points as [|c points IH]; [discriminate|].
  cbn [all_chars point_names]. intros H.
  destruct (is_digit c) eqn:Hc.
  - rewrite (py_int_digit c Hc). cbn [bind].
    rewrite (proj2 (digit_word_lookup c Hc)). cbn [bind].
    cbn [andb] in H. now rewrite (IH H).
  - now rewrite (py_int_not_digit c Hc).
Qed.

(** ** The three routes of the dispatcher *)

Lemma number_string_routes (v : pyvalue) :
  (recognized_integer_string v = true /\
   exists s n, v = PyStr s /\
     number_string v =
       if beyond_digit_limit v
       then Raise (ValueError ExceedsDigitLimit)
       else integer_string n true) \/
  (recognized_integer_string v = false /\ is_integer v = true /\
   exists n, v = PyInt n /\ number_string v = integer_string n true) \/
  (recognized_integer_string v = false /\ is_integer v = false /\
   number_string v = float_string v).
Proof.
  destruct v as [s|n|text]; unfold number_string; cbn [recognized_integer_string is_integer].
  - destruct (fullmatch INT_REGEX s) eqn:E.
    + left. split; [reflexivity|].
      destruct (py_int_recognized s E) as [n Hn].
      exists s, n. rewrite Hn. cbn [beyond_digit_limit].
      split; [reflexivity|].
      now destruct (int_max_str_digits <? digit_total s).
    + right. right. now repeat split.
  - right. left. repeat split. now exists n.
  - right. right. now repeat split.
Qed.

Lemma all_chars_Forall (p : ascii -> bool) (s : string) :
  all_chars p s = true ->
  Forall (fun c => p c = true) (list_ascii_of_string s).
Proof.
  induction s as [|c s IH]; cbn [all_chars list_ascii_of_string];
    intros H; [constructor|].
  apply andb_true_iff in H as [Hc Hs]. constructor; auto.
Qed.

(** A text split in two at the point goes down the float route. *)
Lemma split_text_is_float (text integer points : string) :
  split "." text = [integer; points] ->
  number_string (PyStr text) = float_string (PyStr text).
Proof.
  intros Hsplit. unfold number_string.
  destruct (fullmatch INT_REGEX text) eqn:E; [|reflexivity].
  rewrite (recognized_no_split text E) in Hsplit. discriminate.
Qed.

(** C1 (as the code has it): the text 0, and every unsigned text made of
    a digit from 1 to 9, at least one more digit, and then any number of
    groups of an underscore and at least one digit, is recognised by
    [INT_REGEX]; when it has no more digits than [int()] converts,
    [number_string] returns for it what [integer_string] returns for the
    number its digits denote, and when it has more, [number_string] raises
    the [ValueError] of [int()]. *)
Theorem unsigned_literals_delegate (first : ascii) (rest : string)
    (groups : list string) :
  is_nonzero_digit first = true -> digit_group rest = true ->
  forallb digit_group groups = true ->
  recognized_integer_string (PyStr (grouped_literal first rest groups))
    = true /\
  (digit_total (grouped_literal first rest groups) <= int_max_str_digits ->
   number_string (PyStr (grouped_literal first rest groups)) =
     integer_string (decimal_value (grouped_digits first rest groups))
                    true) /\
  (int_max_str_digits < digit_total (grouped_literal first rest groups) ->
   number_string (PyStr (grouped_literal first rest groups)) =
     Raise (ValueError ExceedsDigitLimit)) /\
  recognized_integer_string (PyStr "0") = true /\
  number_string (PyStr "0") = integer_string 0 true.
Proof.
  intros Hf Hr Hg.
  assert (Hm : fullmatch INT_REGEX (grouped_literal first rest groups) = true).
  { apply INT_REGEX_matches. right. now exists first, rest, groups. }
  split; [exact Hm|].
  assert (Hrun : number_string (PyStr (grouped_literal first rest groups)) =
                 do n <- py_int (grouped_literal first rest groups) in
                 integer_string n true)
    by (unfold number_string; now rewrite Hm).
  rewrite Hrun, (py_int_grouped first rest groups Hf Hr Hg).
  split; [|split].
  - intros Hle. apply Z.ltb_ge in Hle. now rewrite Hle.
  - intros Hgt. apply Z.ltb_lt in Hgt. now rewrite Hgt.
  - split; now vm_compute.
Qed.

Lemma unsigned_literals_delegate_witness :
  is_nonzero_digit "1" = true /\ digit_group "2" = true /\
  forallb digit_group ["345"; "678"] = true /\
  digit_total (grouped_literal "1" "2" ["345"; "678"])
    <= int_max_str_digits /\
  number_string (PyStr (grouped_literal "1" "2" ["345"; "678"])) =
    integer_string (decimal_value (grouped_digits "1" "2" ["345"; "678"]))
                   true.
Proof.
  assert (Hf : is_nonzero_digit "1" = true) by reflexivity.
  assert (Hr : digit_group "2" = true) by reflexivity.
  assert (Hg : forallb digit_group ["345"; "678"] = true) by reflexivity.
  assert (Hd : digit_total (grouped_literal "1" "2" ["345"; "678"])
               <= int_max_str_digits) by (vm_compute; discriminate).
  split; [exact Hf|]. split; [exact Hr|]. split; [exact Hg|].
  split; [exact Hd|].
  exact (proj1 (proj2 (unsigned_literals_delegate "1" "2" ["345"; "678"]
                         Hf Hr Hg)) Hd).
Defined.

(** The string -12 is not handed to the integer renderer: the pattern has
    no sign, and the text has no decimal point to fall back on. *)
Lemma signed_string_not_delegated :
  number_string (PyStr "-12") <> integer_string (- 12) true.
Proof. vm_compute. discriminate. Qed.

(** A single digit other than 0 is not matched by the pattern either. *)
Example single_digit_string :
  number_string (PyStr "5") = Raise (ValueError CannotParseAsFloat) /\
  number_string (PyInt 5) = Ok "five".
Proof. split; now vm_compute. Qed.

(** C2 (as the code has it): when a text falls at the point into an
    integer literal and digits, [number_string] returns the phrase of the
    integer part, the word point, and the word of each fractional digit on
    its own, in order, separated by spaces.  For 12.34 this is the phrase
    of 12 followed by point three four. *)
Theorem fractional_digits_named_singly (text integer points phrase : string)
    (n : Z) :
  split "." text = [integer; points] ->
  py_int integer = Ok n ->
  integer_string n true = Ok phrase ->
  all_chars is_digit points = true ->
  number_string (PyStr text) =
    Ok (phrase +:+ " point " +:+
        String.concat " " (map digit_word (list_ascii_of_string points))) /\
  Forall (fun c => 0 <= digit_value c <= 9 /\
                   dict_getitem DIGIT_NAMES (digit_value c) = Ok (digit_word c))
         (list_ascii_of_string points) /\
  number_string (PyStr "12.34") =
    (do p <- integer_string 12 true in Ok (p +:+ " point three four")) /\
  number_string (PyStr "12.34") = Ok "twelve point three four".
Proof.
  intros Hsplit Hint Hphrase Hdigits. split; [|split; [|split]].
  - rewrite (split_text_is_float text integer points Hsplit).
    rewrite (float_string_split (PyStr text) integer points Hsplit).
    rewrite Hint. cbn [bind]. rewrite Hphrase. cbn [bind].
    rewrite (point_names_digits points Hdigits). reflexivity.
  - eapply Forall_impl; [apply (all_chars_Forall _ _ Hdigits)|].
    intros c Hc. now apply digit_word_lookup.
  - now vm_compute.
  - now vm_compute.
Qed.

Lemma fractional_digits_named_singly_witness :
  split "." "12.34" = ["12"; "34"] /\
  py_int "12" = Ok 12 /\
  integer_string 12 true = Ok "twelve" /\
  all_chars is_digit "34" = true /\
  number_string (PyStr "12.34") =
    Ok ("twelve" +:+ " point " +:+
        String.concat " " (map digit_word (list_ascii_of_string "34"))).
Proof.
  assert (H1 : split "." "12.34" = ["12"; "34"]) by (vm_compute; reflexivity).
  assert (H2 : py_int "12" = Ok 12) by (vm_compute; reflexivity).
  assert (H3 : integer_string 12 true = Ok "twelve")
    by (vm_compute; reflexivity).
  assert (H4 : all_chars is_digit "34" = true) by (vm_compute; reflexivity).
  split; [exact H1|]. split; [exact H2|]. split; [exact H3|].
  split; [exact H4|].
  exact (proj1 (fractional_digits_named_singly "12.34" "12" "34" "twelve" 12
                  H1 H2 H3 H4)).
Defined.

(** The fractional part of 12.34 is not read as one three. *)
Lemma point_one_three_not_returned :
  number_string (PyStr "12.34") <>
  (do p <- integer_string 12 true in Ok (p +:+ " point one three")).
Proof. vm_compute. discriminate. Qed.

(** ** Parse errors *)

Lemma decomposable_split (v : pyvalue) (integer points : string) :
  split "." (py_str v) = [integer; points] ->
  decomposable v = is_ok (py_int integer) && all_chars is_digit points.
Proof. intros H. unfold decomposable. now rewrite H. Qed.

Lemma decomposable_unsplit (v : pyvalue) :
  splits_in_two v = false -> decomposable v = false.
Proof.
  unfold splits_in_two, decomposable.
  destruct (split "." (py_str v)) as [|a [|b [|c l]]];
    try reflexivity; discriminate.
Qed.

Lemma is_ValueError_Raise {A} (why : value_error) :
  is_ValueError (@Raise A (ValueError why)).
Proof. now exists why. Qed.

(** The float route on a text that falls in two at the point. *)
Lemma float_string_outcome (v : pyvalue) (integer points : string) :
  split "." (py_str v) = [integer; points] ->
  float_string v <> Raise (ValueError CannotParseAsFloat) /\
  (integer_part_within_MAX v = true ->
   (decomposable v = true /\ is_Ok (float_string v)) \/
   (decomposable v = false /\ is_ValueError (float_string v))).
Proof.
  intros Hsplit.
  rewrite (decomposable_split v integer points Hsplit).
  rewrite (float_string_split v integer points Hsplit).
  unfold integer_part_within_MAX. rewrite Hsplit.
  destruct (py_int_outcome integer) as [[n ->]|[->| ->]];
    cbn [bind is_ok andb].
  - pose proof (no_ValueError_integer_string n true) as Hno.
    split.
    + destruct (integer_string n true) as [phrase|e|]; cbn [bind].
      * destruct (all_chars is_digit points) eqn:Hd.
        -- rewrite (point_names_digits points Hd). discriminate.
        -- rewrite (point_names_not_digits points Hd). discriminate.
      * intros E. injection E as ->. now apply (Hno CannotParseAsFloat).
      * discriminate.
    + intros Hmax. apply Z.leb_le in Hmax.
      destruct (integer_string_total n true Hmax) as [phrase ->].
      cbn [bind]. destruct (all_chars is_digit points) eqn:Hd.
      * left. split; [reflexivity|].
        rewrite (point_names_digits points Hd). cbn [bind]. now eexists.
      * right. split; [reflexivity|].
        rewrite (point_names_not_digits points Hd).
        apply is_ValueError_Raise.
  - split; [discriminate|]. intros _. right.
    split; [reflexivity | apply is_ValueError_Raise].
  - split; [discriminate|]. intros _. right.
    split; [reflexivity | apply is_ValueError_Raise].
Qed.

(** C9 (as the code has it): for an argument whose text is ASCII and
    whose integer part, when there is one, is of magnitude at most [MAX],
    [number_string] raises [ValueError] exactly when the argument is a
    string [INT_REGEX] matches with more digits than [int()] converts, or
    is none of: a string [INT_REGEX] matches, an integer, a text that
    falls at the decimal point into a literal [int()] accepts and a run
    of digits.  The error of line 169 is raised exactly when the argument
    is neither a matched string nor an integer and its text does not fall
    in two at the point.  When an error is raised no phrase is returned. *)
Theorem parse_error_iff (v : pyvalue) :
  ascii_text (py_str v) = true ->
  integer_part_within_MAX v = true ->
  ValueError_iff_refused v /\
  (number_string v = Raise (ValueError CannotParseAsFloat) <->
     recognized_integer_string v = false /\ is_integer v = false /\
     splits_in_two v = false) /\
  (is_ValueError (number_string v) -> ~ is_Ok (number_string v)).
Proof.
  intros _ Hmax. unfold ValueError_iff_refused.
  split; [|split].
  - destruct (number_string_routes v)
      as [(Hrec & s & n & _ & ->)
         |[(Hrec & Hint & n & -> & ->)|(Hrec & Hint & ->)]].
    + destruct (beyond_digit_limit v) eqn:Hlimit.
      * split; [intros _; now left | intros _; apply is_ValueError_Raise].
      * split.
        -- intros H.
           now apply (no_ValueError_not_is _ _
                        (no_ValueError_integer_string n true)) in H.
        -- intros [(_ & H)|(H & _)]; congruence.
    + split.
      * intros H.
        now apply (no_ValueError_not_is _ _
                     (no_ValueError_integer_string n true)) in H.
      * intros [(H & _)|(_ & H & _)]; discriminate.
    + destruct (splits_in_two v) eqn:Hs.
      * destruct (splits_in_two_parts v Hs) as (integer & points & Hsplit).
        destruct (proj2 (float_string_outcome v integer points Hsplit) Hmax)
          as [(Hd & [phrase ->])|(Hd & Herr)].
        -- split; [intros [why E]; discriminate|].
           intros [(H & _)|(_ & _ & H)]; congruence.
        -- split; [intros _; right; now repeat split | intros _; exact Herr].
      * rewrite (float_string_unsplit v Hs), (decomposable_unsplit v Hs).
        split; [intros _; right; now repeat split
               | intros _; apply is_ValueError_Raise].
  - destruct (number_string_routes v)
      as [(Hrec & s & n & _ & ->)
         |[(Hrec & Hint & n & _ & ->)|(Hrec & Hint & ->)]].
    + split.
      * destruct (beyond_digit_limit v); [discriminate|].
        intros H. now apply (no_ValueError_integer_string n true) in H.
      * intros (H & _). congruence.
    + split.
      * intros H. now apply (no_ValueError_integer_string n true) in H.
      * intros (_ & H & _). congruence.
    + destruct (splits_in_two v) eqn:Hs.
      * destruct (splits_in_two_parts v Hs) as (integer & points & Hsplit).
        pose proof (proj1 (float_string_outcome v integer points Hsplit))
          as Hnot.
        split; [intros E; contradiction | intros (_ & _ & E); discriminate].
      * rewrite (float_string_unsplit v Hs). now repeat split.
  - intros [why E] [phrase E']. congruence.
Qed.

Lemma parse_error_iff_witness :
  ascii_text (py_str (PyStr "12.x4")) = true /\
  integer_part_within_MAX (PyStr "12.x4") = true /\
  ValueError_iff_refused (PyStr "12.x4").
Proof.
  assert (Ha : ascii_text (py_str (PyStr "12.x4")) = true)
    by (vm_compute; reflexivity).
  assert (H : integer_part_within_MAX (PyStr "12.x4") = true)
    by (vm_compute; reflexivity).
  split; [exact Ha|]. split; [exact H|].
  exact (proj1 (parse_error_iff (PyStr "12.x4") Ha H)).
Defined.

(** A text whose integer part is ten to the power 102 and whose fraction
    is not made of digits is none of the three recognised forms, yet what
    is raised is [IndexError], from the renderer, and not [ValueError]. *)
Lemma huge_integer_part_raises_IndexError :
  number_string (PyStr (one_and_zeros 102 +:+ ".x")) = Raise IndexError /\
  ~ ValueError_iff_unrecognized (PyStr (one_and_zeros 102 +:+ ".x")).
Proof.
  assert (E : number_string (PyStr (one_and_zeros 102 +:+ ".x"))
              = Raise IndexError) by (vm_compute; reflexivity).
  split; [exact E|].
  unfold ValueError_iff_unrecognized. rewrite E. intros [_ H].
  destruct H as [why Hwhy]; [|discriminate].
  repeat split; vm_compute; reflexivity.
Qed.

(** * More on the chunker *)

Lemma last_nonzero_cons (d : Z) (ds : list Z) :
  (ds = [] -> d <> 0) -> last ds <> Some 0 -> last (d :: ds) <> Some 0.
Proof.
  intros Hd Hds. destruct ds as [|d' ds]; cbn [last].
  - intros E. injection E as ->. now apply Hd.
  - exact Hds.
Qed.

(** The generator in any base from 2 on, with any budget from [S fuel] on,
    where [number] has at most [fuel] bits. *)
Lemma last_to_first_digit_general (base : Z) (fuel : nat) :
  2 <= base ->
  forall number, 0 <= number < 2 ^ Z.of_nat fuel ->
  exists digits,
    (forall extra,
       last_to_first_digit (S fuel + extra) number base = Some digits) /\
    Forall (fun d => 0 <= d < base) digits /\
    from_digits base digits = number /\
    last digits <> Some 0.
Proof.
  intros Hb. induction fuel as [|fuel IH]; intros number Hn.
  - assert (number = 0) by (change (2 ^ Z.of_nat 0) with 1 in Hn; lia).
    subst number. exists []. repeat split; try constructor; discriminate.
  - destruct (Z.eq_dec number 0) as [->|Hne].
    + exists []. repeat split; try constructor; discriminate.
    + assert (Hdiv : 0 <= number / base < 2 ^ Z.of_nat fuel).
      { split; [apply Z.div_pos; lia|].
        rewrite Nat2Z.inj_succ, Z.pow_succ_r in Hn by lia.
        apply Z.div_lt_upper_bound; [lia|].
        assert (0 < 2 ^ Z.of_nat fuel) by (apply Z.pow_pos_nonneg; lia).
        nia. }
      destruct (IH _ Hdiv) as (ds & Hds & Hall & Hval & Hlast).
      pose proof (Z.mod_pos_bound number base ltac:(lia)) as Hmod.
      pose proof (Z.div_mod number base ltac:(lia)) as Hdm.
      exists (number mod base :: ds). split; [|split; [|split]].
      * intros extra.
        change (S (S fuel) + extra)%nat with (S (S fuel + extra)).
        cbn [last_to_first_digit]. zfalse (number =? 0).
        now rewrite Hds.
      * constructor; assumption.
      * cbn [from_digits]. rewrite Hval. lia.
      * apply last_nonzero_cons; [|exact Hlast].
        intros ->. cbn [from_digits] in Hval. lia.
Qed.

(** X1: for a number that is not negative and a base of 2 or more, the
    generator stops, with the budget the renderer gives it and with any
    larger one; every digit it yields is at least 0 and less than the base;
    the digits, least significant first, are those of the number (which is
    recovered from them); and the last digit yielded is not 0, so that 0
    yields no digit at all. *)
Theorem digits_round_trip (number base : Z) :
  0 <= number -> 2 <= base ->
  exists digits,
    (forall fuel, (digit_budget number <= fuel)%nat ->
       last_to_first_digit fuel number base = Some digits) /\
    Forall (fun d => 0 <= d < base) digits /\
    from_digits base digits = number /\
    last digits <> Some 0 /\
    (number = 0 -> digits = []).
Proof.
  intros Hn Hb.
  destruct (digit_budget_enough number Hn) as (fuel0 & Hbudget & Hbits).
  destruct (last_to_first_digit_general base fuel0 Hb number ltac:(lia))
    as (digits & Hrun & Hall & Hval & Hlast).
  exists digits. split; [|split; [|split; [|split]]]; try assumption.
  - intros fuel Hfuel. rewrite Hbudget in Hfuel.
    replace fuel with (S fuel0 + (fuel - S fuel0))%nat by lia. apply Hrun.
  - intros ->. destruct digits as [|d ds]; [reflexivity|].
    specialize (Hrun O). cbn in Hrun. discriminate.
Qed.

Lemma digits_round_trip_witness :
  0 <= 1234 /\ 2 <= 10 /\
  exists digits,
    (forall fuel, (digit_budget 1234 <= fuel)%nat ->
       last_to_first_digit fuel 1234 10 = Some digits) /\
    Forall (fun d => 0 <= d < 10) digits /\
    from_digits 10 digits = 1234 /\
    last digits <> Some 0 /\
    (1234 = 0 -> digits = []).
Proof.
  assert (H1 : 0 <= 1234) by lia. assert (H2 : 2 <= 10) by lia.
  split; [exact H1|]. split; [exact H2|].
  exact (digits_round_trip 1234 10 H1 H2).
Defined.

(** X2: on a negative number (in any base from 1 on), and on any number
    other than 0 in base 1, the generator never stops: whatever the
    budget, it is spent before the loop ends. *)
Theorem generator_never_stops (number base : Z) (fuel : nat) :
  (number < 0 /\ 1 <= base) \/ (number <> 0 /\ base = 1) ->
  last_to_first_digit fuel number base = None.
Proof.
  revert number. induction fuel as [|fuel IH]; intros number H;
    [reflexivity|].
  cbn [last_to_first_digit]. zfalse (number =? 0).
  rewrite IH; [reflexivity|].
  destruct H as [[Hneg Hb]|[Hne ->]].
  - left. split; [|exact Hb]. apply Z.div_lt_upper_bound; lia.
  - right. split; [|reflexivity]. now rewrite Z.div_1_r.
Qed.

Lemma generator_never_stops_witness :
  ((- 5 < 0 /\ 1 <= 10) \/ (- 5 <> 0 /\ 10 = 1)) /\
  last_to_first_digit 1000 (- 5) 10 = None.
Proof.
  assert (H : (- 5 < 0 /\ 1 <= 10) \/ (- 5 <> 0 /\ 10 = 1))
    by (left; lia).
  split; [exact H|]. exact (generator_never_stops (- 5) 10 1000 H).
Defined.

(** * More on the integer renderer *)

(** X3: on every integer the renderer ends; it returns a phrase exactly
    when the magnitude is at most [MAX], and otherwise raises
    [IndexError], the only exception it ever raises. *)
Theorem integer_string_every_integer (n : Z) (use_and : bool) :
  (is_Ok (integer_string n use_and) <-> Z.abs n <= MAX) /\
  (~ Z.abs n <= MAX <-> integer_string n use_and = Raise IndexError) /\
  (forall e, integer_string n use_and = Raise e -> e = IndexError) /\
  integer_string n use_and <> Hang.
Proof.
  destruct (integer_string_outcome n use_and) as [[Hle [p Hp]]|[Hgt He]].
  - rewrite Hp. split; [|split; [|split]].
    + split; [intros _; exact Hle | intros _; now exists p].
    + split; [intros H; contradiction | discriminate].
    + discriminate.
    + discriminate.
  - rewrite He. split; [|split; [|split]].
    + split; [intros [p Hp]; discriminate | lia].
    + split; [reflexivity | lia].
    + intros e E. now injection E as <-.
    + discriminate.
Qed.

Lemma positions_value : positions = 34%nat.
Proof. reflexivity. Qed.

Lemma append_empty_l (a : string) : "" +:+ a = a.
Proof. reflexivity. Qed.

Lemma omap_in_ext {A B} (f g : A -> option B) (l : list A) :
  (forall x, In x l -> f x = g x) -> omap f l = omap g l.
Proof.
  induction l as [|x l IH]; intros H; [reflexivity|].
  rewrite !omap_cons, (H x (or_introl eq_refl)), IH; [reflexivity|].
  intros y Hy. apply H. now right.
Qed.

Lemma omap_nonempty {A B} (f : A -> option B) (l : list A) (x : A) (y : B) :
  In x l -> f x = Some y -> omap f l <> [].
Proof.
  induction l as [|a l IH]; intros Hin Hx; [contradiction|].
  rewrite omap_cons. destruct Hin as [->|Hin].
  - rewrite Hx. discriminate.
  - destruct (f a); [discriminate | now apply IH].
Qed.

Lemma chunk_at_zero_position (n : Z) : chunk_at n 0 = Z.abs n mod 1000.
Proof. unfold chunk_at. change (1000 ^ Z.of_nat 0) with 1. now rewrite Z.div_1_r. Qed.

Lemma chunk_at_succ (n : Z) (i : nat) :
  chunk_at n (S i) = chunk_at (Z.abs n / 1000) i.
Proof.
  unfold chunk_at. rewrite pow_1000_succ.
  rewrite (Z.abs_eq (Z.abs n / 1000))
    by (apply Z.div_pos; [apply Z.abs_nonneg | lia]).
  rewrite Z.div_div by (try apply pow_1000_pos; lia). reflexivity.
Qed.

(** The phrases of the positions from 1 on do not depend on the lowest
    chunk. *)
Lemma position_phrase_above (use_and : bool) (n : Z) (i : nat) :
  0 <= n ->
  position_phrase use_and (n - n mod 1000) (S i) =
  position_phrase use_and n (S i).
Proof.
  intros Hn. unfold position_phrase. rewrite !chunk_at_succ.
  pose proof (Z.div_mod n 1000 ltac:(lia)) as Hdm.
  pose proof (Z.mod_pos_bound n 1000 ltac:(lia)) as Hmod.
  rewrite (Z.abs_eq n) by lia.
  rewrite (Z.abs_eq (n - n mod 1000)) by lia.
  replace (n - n mod 1000) with (n / 1000 * 1000) by lia.
  now rewrite Z.div_mul by lia.
Qed.

(** A number from 1000 on has a phrase at some position from 1 on. *)
Lemma high_positions_nonempty (use_and : bool) (n : Z) :
  1000 <= n <= MAX ->
  omap (position_phrase use_and n) (seq 1 (positions - 1)) <> [].
Proof.
  intros [Hlo Hhi].
  destruct (chunks_of_abs n) as (k & _ & Hlt & Hz & Hge).
  rewrite (Z.abs_eq n) in * by lia.
  pose proof (chunk_count_within_MAX n k) as Hk.
  rewrite (Z.abs_eq n) in Hk by lia. specialize (Hk Hhi Hz Hge).
  assert (H2 : (2 <= k)%nat).
  { destruct k as [|[|k]]; [| |lia].
    - change (1000 ^ Z.of_nat 0) with 1 in Hlt. lia.
    - change (1000 ^ Z.of_nat 1) with 1000 in Hlt. lia. }
  pose proof (top_chunk_nonzero n k) as Htop.
  rewrite (Z.abs_eq n) in Htop by lia.
  destruct (Htop ltac:(lia) Hlt (Hge ltac:(lia))) as [_ Hnz].
  apply (omap_nonempty _ _ (k - 1)%nat
           (chunk_name use_and (chunk_at n (k - 1))
            +:+ scale_suffix (k - 1))).
  - apply in_seq. lia.
  - unfold position_phrase. now zfalse (chunk_at n (k - 1) =? 0).
Qed.

Lemma rev_nonempty {A} (l : list A) : l <> [] -> rev l <> [].
Proof.
  destruct l as [|x l]; [congruence|]. intros _ E. cbn [rev] in E.
  apply app_eq_nil in E as [_ E]. discriminate.
Qed.

(** Joining the phrases of all positions, when position 0 has one. *)
Lemma join_positions_low (f : nat -> option string) (k : nat) (x : string) :
  f O = Some x -> omap f (seq 1 k) <> [] ->
  String.concat ", " (rev (omap f (seq 0 (S k)))) =
  String.concat ", " (rev (omap f (seq 1 k))) +:+ ", " +:+ x.
Proof.
  intros Hx Hne. cbn [seq]. rewrite omap_cons, Hx. cbn [rev].
  apply concat_snoc. now apply rev_nonempty.
Qed.

(** And when it has none. *)
Lemma join_positions_high (f : nat -> option string) (k : nat) :
  f O = None -> omap f (seq 0 (S k)) = omap f (seq 1 k).
Proof. intros Hx. cbn [seq]. now rewrite omap_cons, Hx. Qed.

(** X5: a number from 1000 to [MAX] whose last three digits are not all 0
    reads as the number without them, then a comma and a space, then the
    last three digits read as a number of their own:
    [integer_string(n) = integer_string(n - n % 1000) + ', ' +
    integer_string(n % 1000)]. *)
Theorem integer_string_last_chunk (n : Z) (use_and : bool) :
  1000 <= n <= MAX -> n mod 1000 <> 0 ->
  exists high low,
    integer_string (n - n mod 1000) use_and = Ok high /\
    integer_string (n mod 1000) use_and = Ok low /\
    integer_string n use_and = Ok (high +:+ ", " +:+ low).
Proof.
  intros [Hlo Hhi] Hc.
  pose proof (Z.mod_pos_bound n 1000 ltac:(lia)) as Hmod.
  destruct (chunk_words_name use_and (n mod 1000) ltac:(lia))
    as (ws & _ & _ & Hlow & Hname).
  exists (render_by_position use_and (n - n mod 1000)),
         (chunk_name use_and (n mod 1000)).
  split; [apply integer_string_within_MAX; lia|].
  split; [rewrite Hname; exact Hlow|].
  rewrite integer_string_within_MAX by lia. f_equal.
  assert (En : position_phrase use_and n 0
               = Some (chunk_name use_and (n mod 1000))).
  { unfold position_phrase. rewrite chunk_at_zero_position, Z.abs_eq by lia.
    zfalse (n mod 1000 =? 0). unfold scale_suffix.
    now rewrite append_empty_r. }
  assert (Em : position_phrase use_and (n - n mod 1000) 0 = None).
  { unfold position_phrase. rewrite chunk_at_zero_position, Z.abs_eq by lia.
    now rewrite Zminus_mod_idemp_r, Z.sub_diag, Z.mod_0_l by lia. }
  pose proof (high_positions_nonempty use_and n (conj Hlo Hhi)) as Hne.
  unfold render_by_position.
  zfalse (n <? 0). zfalse (n - n mod 1000 <? 0). rewrite !append_empty_l.
  rewrite positions_value in *.
  rewrite (join_positions_high _ 33 Em).
  rewrite (join_positions_low _ 33 _ En Hne).
  rewrite (omap_in_ext (position_phrase use_and (n - n mod 1000))
             (position_phrase use_and n) (seq 1 33)); [reflexivity|].
  intros i Hi. apply in_seq in Hi. destruct i as [|i]; [lia|].
  apply position_phrase_above. lia.
Qed.

Lemma integer_string_last_chunk_witness :
  1000 <= 1234 <= MAX /\ 1234 mod 1000 <> 0 /\
  exists high low,
    integer_string (1234 - 1234 mod 1000) true = Ok high /\
    integer_string (1234 mod 1000) true = Ok low /\
    integer_string 1234 true = Ok (high +:+ ", " +:+ low).
Proof.
  assert (H1 : 1000 <= 1234 <= MAX).
  { split; [lia|]. apply Z.leb_le. vm_compute. reflexivity. }
  assert (H2 : 1234 mod 1000 <> 0) by (vm_compute; discriminate).
  split; [exact H1|]. split; [exact H2|].
  exact (integer_string_last_chunk 1234 true H1 H2).
Defined.

(** * More on the patterns *)

Lemma INT_LITERAL_lang (s : string) :
  lang INT_LITERAL s <->
  exists first rest groups,
    is_nonzero_digit first = true /\ digit_group rest = true /\
    forallb digit_group groups = true /\
    s = grouped_literal first rest groups.
Proof.
  unfold INT_LITERAL, grouped_literal. split.
  - intros Hlit.
    inversion Hlit as [| | | |rc rd sc sd Hfirst Htail| |]; subst.
    inversion Hfirst; subst.
    inversion Htail as [| | | |re rf se sf Hrest Hgroups| |]; subst.
    apply lang_plus_digits in Hrest.
    apply lang_groups in Hgroups as (groups & Hg & ->).
    match goal with c : ascii |- _ => exists c, se, groups end.
    repeat split; assumption.
  - intros (first & rest & groups & Hf & Hr & Hg & ->).
    rewrite append_cons.
    change (String first (rest +:+ ?x)) with (String first "" +:+ rest +:+ x).
    apply lang_seq; [now constructor|].
    apply lang_seq; [now apply lang_plus_digits|].
    apply lang_groups. now exists groups.
Qed.

Lemma INT_REGEX_literal (s : string) :
  fullmatch INT_REGEX s = true <-> s = "0" \/ lang INT_LITERAL s.
Proof.
  rewrite INT_REGEX_matches, INT_LITERAL_lang. reflexivity.
Qed.

Lemma grouped_literal_long (first : ascii) (rest : string)
    (groups : list string) :
  digit_group rest = true ->
  exists c r, grouped_literal first rest groups = String first (String c r).
Proof.
  intros Hr. destruct (digit_group_cons rest Hr) as (c & r & -> & _).
  unfold grouped_literal. rewrite !append_cons. eauto.
Qed.

(** X6: of the ASCII texts, [INT_REGEX] matches in full exactly the text
    0 and the texts made of a digit from 1 to 9, one or more digits, and
    then any number of groups of an underscore and one or more digits.
    So it refuses every one-character text but 0 (the digits 1 to 9 among
    them), and every longer text that starts with 0, with a sign or with
    an underscore. *)
Theorem INT_REGEX_language (s : string) :
  ascii_text s = true ->
  (fullmatch INT_REGEX s = true <->
   s = "0" \/
   exists first rest groups,
     is_nonzero_digit first = true /\ digit_group rest = true /\
     forallb digit_group groups = true /\
     s = grouped_literal first rest groups) /\
  (forall c, s = String c "" -> fullmatch INT_REGEX s = true ->
     c = "0"%char) /\
  (forall c r, s = String c r -> r <> "" ->
     fullmatch INT_REGEX s = true -> is_nonzero_digit c = true).
Proof.
  intros _. split; [apply INT_REGEX_matches|]. split.
  - intros c -> H.
    apply INT_REGEX_matches in H
      as [H|(first & rest & groups & _ & Hr & _ & H)].
    + now injection H.
    + destruct (grouped_literal_long first rest groups Hr) as (d & r & E).
      rewrite E in H. discriminate.
  - intros c r -> Hne H.
    apply INT_REGEX_matches in H
      as [H|(first & rest & groups & Hf & Hr & _ & H)].
    + injection H as -> ->. contradiction.
    + destruct (grouped_literal_long first rest groups Hr) as (d & r' & E).
      rewrite E in H. now injection H as -> _.
Qed.

Lemma INT_REGEX_language_witness :
  ascii_text (grouped_literal "1" "2" ["345"]) = true /\
  fullmatch INT_REGEX (grouped_literal "1" "2" ["345"]) = true.
Proof.
  assert (Ha : ascii_text (grouped_literal "1" "2" ["345"]) = true)
    by (vm_compute; reflexivity).
  split; [exact Ha|].
  apply (proj2 (proj1 (INT_REGEX_language (grouped_literal "1" "2" ["345"])
                         Ha))).
  right. exists "1"%char, "2", ["345"].
  split; [reflexivity|]. split; [reflexivity|]. split; reflexivity.
Defined.

(** X7: of the ASCII texts, [FLOAT_REGEX], which concatenates the texts of
    two patterns with alternatives, matches in full exactly what
    [INT_REGEX] matches and, in addition, a literal other than 0 followed
    by a point and the single digit 0: it matches 12.0, but neither 12.34
    nor 0.5. *)
Theorem FLOAT_REGEX_language (s : string) :
  ascii_text s = true ->
  (fullmatch FLOAT_REGEX s = true <->
   fullmatch INT_REGEX s = true \/
   exists first rest groups,
     is_nonzero_digit first = true /\ digit_group rest = true /\
     forallb digit_group groups = true /\
     s = grouped_literal first rest groups +:+ ".0").
Proof.
  intros _.
  rewrite INT_REGEX_literal, fullmatch_lang. unfold FLOAT_REGEX. split.
  - intros H. inversion H as [| |ra rb sa Hzero|ra rb sa Hrest| | |]; subst.
    + inversion Hzero; subst. left. left.
      match goal with H : is_char _ _ = true |- _ =>
        apply is_char_eq in H; now subst end.
    + inversion Hrest as [| |rc rd sc Hpoint|rc rd sc Hlit| | |]; subst.
      * right.
        inversion Hpoint as [| | | |re rf se sf Hlit Hend| |]; subst.
        inversion Hend as [| | | |rg rh sg sh Hdot Hnought| |]; subst.
        inversion Hdot; subst. inversion Hnought; subst.
        repeat match goal with H : is_char _ _ = true |- _ =>
          apply is_char_eq in H; subst end.
        apply INT_LITERAL_lang in Hlit
          as (first & rest & groups & Hf & Hr & Hg & ->).
        now exists first, rest, groups.
      * left. now right.
  - intros [[->|Hlit]|(first & rest & groups & Hf & Hr & Hg & ->)].
    + apply lang_alt_l. now constructor.
    + apply lang_alt_r, lang_alt_r. exact Hlit.
    + apply lang_alt_r, lang_alt_l.
      apply lang_seq; [apply INT_LITERAL_lang; now exists first, rest, groups|].
      change ".0" with (String "." "" +:+ String "0" "").
      apply lang_seq; now constructor.
Qed.

Lemma FLOAT_REGEX_language_witness :
  ascii_text (grouped_literal "1" "2" [] +:+ ".0") = true /\
  fullmatch FLOAT_REGEX (grouped_literal "1" "2" [] +:+ ".0") = true.
Proof.
  assert (Ha : ascii_text (grouped_literal "1" "2" [] +:+ ".0") = true)
    by (vm_compute; reflexivity).
  split; [exact Ha|].
  apply (proj2 (FLOAT_REGEX_language _ Ha)).
  right. exists "1"%char, "2", [].
  split; [reflexivity|]. split; [reflexivity|]. split; reflexivity.
Defined.

(** The texts 12.34 and 0.5 are not among them. *)
Example FLOAT_REGEX_refuses :
  fullmatch FLOAT_REGEX "12.34" = false /\
  fullmatch FLOAT_REGEX "0.5" = false.
Proof. split; now vm_compute. Qed.

(** * More on the dispatcher *)

Lemma split_nonempty (sep : ascii) (s : string) : split sep s <> [].
Proof.
  destruct s as [|c s]; cbn [split]; [discriminate|].
  destruct (Ascii.eqb c sep); [discriminate|].
  destruct (split sep s); discriminate.
Qed.

(** Splitting a text at its first point. *)
Lemma split_first_point (a b : string) :
  all_chars not_point a = true ->
  split "." (a +:+ "." +:+ b) = a :: split "." b.
Proof.
  induction a as [|c a IH]; intros H.
  - rewrite append_empty_l, append_cons. cbn [split].
    now rewrite Ascii.eqb_refl.
  - cbn [all_chars] in H. apply andb_true_iff in H as [Hc Ha].
    rewrite append_cons. cbn [split]. rewrite (IH Ha).
    unfold not_point in Hc. apply negb_true_iff in Hc. now rewrite Hc.
Qed.

Lemma split_one_point (a b : string) :
  all_chars not_point a = true -> all_chars not_point b = true ->
  split "." (a +:+ "." +:+ b) = [a; b].
Proof.
  intros Ha Hb. now rewrite (split_first_point a b Ha), (split_no_point b Hb).
Qed.

(** A value that is not an integer and whose text has a point goes down
    the float route. *)
Lemma number_string_float_route (v : pyvalue) (a b : string) :
  is_integer v = false -> py_str v = a +:+ "." +:+ b ->
  all_chars not_point a = true ->
  number_string v = float_string v.
Proof.
  intros Hint Htext Ha.
  destruct (number_string_routes v)
    as [(Hrec & s & n & -> & _)|[(_ & Hint' & _)|(_ & _ & H)]];
    [|congruence|exact H].
  cbn [recognized_integer_string py_str] in *.
  pose proof (recognized_no_split s Hrec) as Hs.
  rewrite Htext, (split_first_point a b Ha) in Hs.
  injection Hs as _ Hs. now apply split_nonempty in Hs.
Qed.

(** [int()] on a run of digits, bare and behind a minus sign. *)
Lemma int_digits_all (s : string) :
  digit_group s = true ->
  int_digits 0 false s = Some (decimal_value s).
Proof.
  intros H. destruct (digit_group_cons s H) as (c & r & -> & Hc & Hr).
  rewrite <- (append_empty_r (String c r)) at 1.
  rewrite int_digits_run by (cbn [all_chars]; now rewrite Hc, Hr).
  reflexivity.
Qed.

Lemma digits_not_space (s : string) :
  all_chars is_digit s = true -> all_chars not_space s = true.
Proof.
  apply all_chars_weaken. intros c Hc. unfold not_space.
  now rewrite digit_not_space.
Qed.

Lemma digits_not_point (s : string) :
  all_chars is_digit s = true -> all_chars not_point s = true.
Proof.
  apply all_chars_weaken. intros c Hc. apply literal_char_not_point.
  unfold literal_char. now rewrite Hc.
Qed.

Lemma digit_group_all (s : string) :
  digit_group s = true -> all_chars is_digit s = true.
Proof. destruct s; [discriminate | trivial]. Qed.

Lemma py_int_digits (s : string) :
  digit_group s = true ->
  Z.of_nat (String.length s) <= int_max_str_digits ->
  py_int s = Ok (decimal_value s).
Proof.
  intros H Hlen. pose proof (int_digits_all s H) as Hd.
  pose proof (digits_not_space s (digit_group_all s H)) as Hs.
  pose proof (exceeds_digit_limit_short s Hlen) as Hlimit.
  destruct (digit_group_cons s H) as (c & r & -> & Hc & Hr).
  rewrite py_int_unsigned by assumption. now rewrite Hlimit, Hd.
Qed.

Lemma py_int_minus_digits (s : string) :
  digit_group s = true ->
  Z.of_nat (String.length s) <= int_max_str_digits ->
  py_int ("-" +:+ s) = Ok (- decimal_value s).
Proof.
  intros H Hlen. pose proof (int_digits_all s H) as Hd.
  pose proof (digits_not_space s (digit_group_all s H)) as Hs.
  pose proof (exceeds_digit_limit_short s Hlen) as Hlimit.
  unfold py_int. rewrite append_cons, append_empty_l.
  rewrite lstrip_first by reflexivity.
  rewrite rstrip_no_space by (cbn [all_chars]; now rewrite Hs).
  change (is_char "-" "-") with true. cbv iota. now rewrite Hlimit, Hd.
Qed.

(** The number a run of digits denotes has no more digits than the run. *)
Lemma decimal_from_bound (s : string) :
  all_chars is_digit s = true ->
  forall acc, 0 <= acc ->
    0 <= decimal_from acc s <
    (acc + 1) * 10 ^ Z.of_nat (String.length s).
Proof.
  induction s as [|c s IH]; intros H acc Hacc.
  - cbn [decimal_from String.length]. change (10 ^ Z.of_nat 0) with 1. lia.
  - cbn [all_chars] in H. apply andb_true_iff in H as [Hc Hs].
    apply is_digit_range in Hc.
    cbn [decimal_from String.length].
    assert (Hv : 0 <= digit_value c <= 9) by (unfold digit_value; lia).
    specialize (IH Hs (10 * acc + digit_value c) ltac:(lia)).
    rewrite Nat2Z.inj_succ, Z.pow_succ_r by lia.
    assert (0 < 10 ^ Z.of_nat (String.length s))
      by (apply Z.pow_pos_nonneg; lia).
    nia.
Qed.

Lemma decimal_value_within_MAX (s : string) :
  all_chars is_digit s = true ->
  (String.length s <= 102)%nat ->
  0 <= decimal_value s <= MAX.
Proof.
  intros Hd Hlen. pose proof (decimal_from_bound s Hd 0 ltac:(lia)) as Hb.
  unfold decimal_value.
  assert (10 ^ Z.of_nat (String.length s) <= 10 ^ 102)
    by (apply Z.pow_le_mono_r; lia).
  assert (MAX + 1 = 10 ^ 102) by now vm_compute.
  lia.
Qed.

(** X8: a text that ends at its decimal point, as 12. does, is read as the
    integer part followed by the word point and a space, with no digit
    after it. *)
Theorem empty_fraction (v : pyvalue) (integer phrase : string) (n : Z) :
  is_integer v = false -> py_str v = integer +:+ "." ->
  all_chars not_point integer = true ->
  py_int integer = Ok n -> integer_string n true = Ok phrase ->
  number_string v = Ok (phrase +:+ " point ").
Proof.
  intros Hv Htext Hpoint Hint Hphrase.
  assert (Htext' : py_str v = integer +:+ "." +:+ "")
    by (rewrite (append_empty_r "."); exact Htext).
  rewrite (number_string_float_route v integer "" Hv Htext' Hpoint).
  rewrite (float_string_split v integer "");
    [|now rewrite Htext', (split_one_point integer "" Hpoint)].
  rewrite Hint. cbn [bind]. rewrite Hphrase. reflexivity.
Qed.

Lemma empty_fraction_witness :
  is_integer (PyStr "12.") = false /\ py_str (PyStr "12.") = "12" +:+ "." /\
  all_chars not_point "12" = true /\ py_int "12" = Ok 12 /\
  integer_string 12 true = Ok "twelve" /\
  number_string (PyStr "12.") = Ok ("twelve" +:+ " point ").
Proof.
  assert (H1 : is_integer (PyStr "12.") = false) by reflexivity.
  assert (H2 : py_str (PyStr "12.") = "12" +:+ ".") by reflexivity.
  assert (H3 : all_chars not_point "12" = true) by (vm_compute; reflexivity).
  assert (H4 : py_int "12" = Ok 12) by (vm_compute; reflexivity).
  assert (H5 : integer_string 12 true = Ok "twelve")
    by (vm_compute; reflexivity).
  repeat (split; [assumption|]).
  exact (empty_fraction (PyStr "12.") "12" "twelve" 12 H1 H2 H3 H4 H5).
Defined.

(** X9: a text that starts at its decimal point, as .5 does, has an empty
    integer part, which [int()] refuses: [ValueError] is raised, whatever
    follows the point. *)
Theorem empty_integer_part (v : pyvalue) (points : string) :
  is_integer v = false -> py_str v = "." +:+ points ->
  is_ValueError (number_string v).
Proof.
  intros Hv Htext.
  rewrite (number_string_float_route v "" points Hv Htext eq_refl).
  unfold float_string.
  rewrite Htext, <- (append_empty_l ("." +:+ points)).
  rewrite (split_first_point "" points eq_refl).
  destruct (split "." points) as [|p [|q l]].
  - now exists CannotParseAsFloat.
  - now exists InvalidLiteral.
  - now exists CannotParseAsFloat.
Qed.

Lemma empty_integer_part_witness :
  is_integer (PyStr ".5") = false /\ py_str (PyStr ".5") = "." +:+ "5" /\
  is_ValueError (number_string (PyStr ".5")).
Proof.
  assert (H1 : is_integer (PyStr ".5") = false) by reflexivity.
  assert (H2 : py_str (PyStr ".5") = "." +:+ "5") by reflexivity.
  split; [exact H1|]. split; [exact H2|].
  exact (empty_integer_part (PyStr ".5") "5" H1 H2).
Defined.

(** The phrase of a negative number within [MAX], from that of its
    opposite. *)
Lemma integer_string_negative_phrase (n : Z) (use_and : bool) :
  0 < n <= MAX ->
  exists phrase,
    integer_string n use_and = Ok phrase /\
    integer_string (- n) use_and = Ok ("minus " +:+ phrase).
Proof.
  intros [Hpos Hmax]. exists (render_by_position use_and n). split.
  - apply integer_string_within_MAX; lia.
  - rewrite <- render_by_position_opp by assumption.
    apply integer_string_within_MAX; lia.
Qed.

Lemma py_int_minus_zero : py_int "-0" = Ok 0 /\ py_int "0" = Ok 0.
Proof. split; now vm_compute. Qed.

(** X10: the sign of a decimal text whose integer part is 0 is lost:
    -0.5 is read exactly as 0.5 is, whatever follows the point; with
    digits after the point both read zero point and the digit words. *)
Theorem sign_lost_on_zero (points : string) :
  number_string (PyStr ("-0" +:+ "." +:+ points)) =
    number_string (PyStr ("0" +:+ "." +:+ points)) /\
  number_string (PyOther ("-0" +:+ "." +:+ points)) =
    number_string (PyOther ("0" +:+ "." +:+ points)) /\
  (all_chars is_digit points = true ->
   number_string (PyStr ("-0" +:+ "." +:+ points)) =
     Ok ("zero point " +:+
         String.concat " " (map digit_word (list_ascii_of_string points)))).
Proof.
  assert (Hroute : forall v a,
            is_integer v = false -> py_str v = a +:+ "." +:+ points ->
            all_chars not_point a = true ->
            number_string v =
            match split "." points with
            | [p] =>
                do n <- py_int a in
                do integer_part <- integer_string n true in
                do names <- point_names p in
                Ok (integer_part +:+ " point " +:+ String.concat " " names)
            | _ => Raise (ValueError CannotParseAsFloat)
            end).
  { intros v a Hv Htext Ha.
    rewrite (number_string_float_route v a points Hv Htext Ha).
    unfold float_string. rewrite Htext, (split_first_point a points Ha).
    destruct (split "." points) as [|p [|q l]]; reflexivity. }
  destruct py_int_minus_zero as [Hminus Hzero].
  split; [|split].
  - rewrite (Hroute (PyStr ("-0" +:+ "." +:+ points)) "-0" eq_refl eq_refl eq_refl).
    rewrite (Hroute (PyStr ("0" +:+ "." +:+ points)) "0" eq_refl eq_refl eq_refl).
    now rewrite Hminus, Hzero.
  - rewrite (Hroute (PyOther ("-0" +:+ "." +:+ points)) "-0" eq_refl eq_refl eq_refl).
    rewrite (Hroute (PyOther ("0" +:+ "." +:+ points)) "0" eq_refl eq_refl eq_refl).
    now rewrite Hminus, Hzero.
  - intros Hd.
    rewrite (Hroute (PyStr ("-0" +:+ "." +:+ points)) "-0" eq_refl eq_refl eq_refl).
    rewrite (split_no_point points (digits_not_point points Hd)).
    rewrite Hminus. cbn [bind].
    replace (integer_string 0 true) with (@Ok string "zero")
      by (vm_compute; reflexivity).
    cbn [bind]. rewrite (point_names_digits points Hd). cbn [bind].
    reflexivity.
Qed.

(** X11: a minus sign is read only in front of a decimal point.  For a
    run of digits, no longer than [int()] converts, that denotes a number
    from 1 to [MAX], the run behind a minus sign raises [ValueError],
    while the run behind a minus sign and followed by a point and digits
    reads as minus and the phrase of the unsigned text. *)
Theorem sign_needs_point (integer points : string) :
  digit_group integer = true -> all_chars is_digit points = true ->
  Z.of_nat (String.length integer) <= int_max_str_digits ->
  0 < decimal_value integer <= MAX ->
  number_string (PyStr ("-" +:+ integer)) =
    Raise (ValueError CannotParseAsFloat) /\
  exists phrase,
    number_string (PyStr (integer +:+ "." +:+ points)) = Ok phrase /\
    number_string (PyStr ("-" +:+ integer +:+ "." +:+ points)) =
      Ok ("minus " +:+ phrase).
Proof.
  intros Hi Hp Hlen Hn.
  pose proof (digit_group_all integer Hi) as Hdigits.
  pose proof (digits_not_point integer Hdigits) as Hnp.
  pose proof (digits_not_point points Hp) as Hpp.
  split.
  - assert (Hs : split "." ("-" +:+ integer) = ["-" +:+ integer]).
    { apply split_no_point. rewrite append_cons, append_empty_l.
      cbn [all_chars]. now rewrite Hnp. }
    destruct (number_string_routes (PyStr ("-" +:+ integer)))
      as [(Hrec & _)|[(_ & Hint & _)|(_ & _ & ->)]].
    + cbn [recognized_integer_string] in Hrec.
      apply INT_REGEX_matches in Hrec
        as [Hrec|(first & rest & groups & Hf & _ & _ & Hrec)].
      * rewrite append_cons in Hrec. discriminate.
      * unfold grouped_literal in Hrec. rewrite !append_cons in Hrec.
        injection Hrec as <- _. discriminate.
    + discriminate.
    + apply float_string_unsplit. unfold splits_in_two.
      cbn [py_str]. now rewrite Hs.
  - destruct (integer_string_negative_phrase (decimal_value integer) true Hn)
      as (phrase & Hpos & Hneg).
    exists (phrase +:+ " point " +:+
            String.concat " " (map digit_word (list_ascii_of_string points))).
    split.
    + rewrite (number_string_float_route
                 (PyStr (integer +:+ "." +:+ points)) integer points
                 eq_refl eq_refl Hnp).
      rewrite (float_string_split
                 (PyStr (integer +:+ "." +:+ points)) integer points
                 (split_one_point integer points Hnp Hpp)).
      rewrite (py_int_digits integer Hi Hlen). cbn [bind]. rewrite Hpos.
      cbn [bind]. rewrite (point_names_digits points Hp). reflexivity.
    + assert (Hnp' : all_chars not_point ("-" +:+ integer) = true).
      { rewrite append_cons, append_empty_l. cbn [all_chars].
        now rewrite Hnp. }
      assert (Htext : py_str (PyStr ("-" +:+ integer +:+ "." +:+ points))
                      = ("-" +:+ integer) +:+ "." +:+ points).
      { cbn [py_str]. now rewrite !append_assoc. }
      rewrite (number_string_float_route
                 (PyStr ("-" +:+ integer +:+ "." +:+ points))
                 ("-" +:+ integer) points eq_refl Htext Hnp').
      rewrite (float_string_split
                 (PyStr ("-" +:+ integer +:+ "." +:+ points))
                 ("-" +:+ integer) points).
      2:{ rewrite Htext. now apply split_one_point. }
      rewrite (py_int_minus_digits integer Hi Hlen). cbn [bind].
      rewrite Hneg.
      cbn [bind]. rewrite (point_names_digits points Hp). cbn [bind].
      now rewrite !append_assoc.
Qed.

Lemma sign_needs_point_witness :
  digit_group "12" = true /\ all_chars is_digit "5" = true /\
  Z.of_nat (String.length "12") <= int_max_str_digits /\
  0 < decimal_value "12" <= MAX /\
  number_string (PyStr ("-" +:+ "12")) =
    Raise (ValueError CannotParseAsFloat).
Proof.
  assert (H1 : digit_group "12" = true) by reflexivity.
  assert (H2 : all_chars is_digit "5" = true) by reflexivity.
  assert (Hl : Z.of_nat (String.length "12") <= int_max_str_digits)
    by (vm_compute; discriminate).
  assert (H3 : 0 < decimal_value "12" <= MAX).
  { split; [reflexivity|]. apply Z.leb_le. vm_compute. reflexivity. }
  split; [exact H1|]. split; [exact H2|]. split; [exact Hl|].
  split; [exact H3|].
  exact (proj1 (sign_needs_point "12" "5" H1 H2 Hl H3)).
Defined.

(** * The random strings *)

Lemma digit_text_code (d : Z) :
  0 <= d <= 9 ->
  exists c, digit_text d = String c "" /\ char_code c = 48 + d.
Proof.
  intros Hd. unfold digit_text. eexists. split; [reflexivity|].
  unfold char_code. rewrite N_ascii_embedding by lia.
  rewrite Z2N.id by lia. reflexivity.
Qed.

Lemma well_drawn_facts (max_digits : Z) (d : draws) :
  well_drawn max_digits d = true ->
  1 <= drawn_first d <= 9 /\
  0 <= drawn_count d < max_digits - 1 /\
  Z.of_nat (String.length (drawn_tail d)) = drawn_count d /\
  all_chars is_digit (drawn_tail d) = true.
Proof.
  unfold well_drawn. intros H.
  repeat (apply andb_true_iff in H as [H ?]).
  repeat match goal with
         | H : (_ <=? _) = true |- _ => apply Z.leb_le in H
         | H : (_ <? _) = true |- _ => apply Z.ltb_lt in H
         | H : (_ =? _) = true |- _ => apply Z.eqb_eq in H
         end.
  repeat split; assumption || lia.
Qed.

(** What [random_integer_string] returns on draws the module can make. *)
Lemma random_integer_string_returns (max_digits : Z) (d : draws) :
  well_drawn max_digits d = true ->
  exists c,
    random_integer_string max_digits d = Returned (String c (drawn_tail d)) /\
    is_nonzero_digit c = true.
Proof.
  intros H. destruct (well_drawn_facts max_digits d H) as (Hf & Hc & _ & _).
  destruct (digit_text_code (drawn_first d) ltac:(lia)) as (c & Hc' & Hcode).
  exists c. split.
  - unfold random_integer_string. ztrue (0 <? max_digits - 1).
    rewrite Hc'. reflexivity.
  - unfold is_nonzero_digit. rewrite Hcode.
    ztrue (49 <=? 48 + drawn_first d). ztrue (48 + drawn_first d <=? 57).
    reflexivity.
Qed.

(** X12: given draws the [random] module can make, [random_integer_string]
    returns a run of digits that starts with a digit from 1 to 9 and has
    between 1 and [max_digits - 1] characters (one less than its
    documentation says); [INT_REGEX] matches it exactly when it has two
    digits or more.  With [max_digits] at most 1 the module can make no
    such draws and the call raises, whatever was drawn. *)
Theorem random_integer_string_shape (max_digits : Z) (d : draws) :
  (well_drawn max_digits d = true ->
   exists c r,
     random_integer_string max_digits d = Returned (String c r) /\
     is_nonzero_digit c = true /\ all_chars is_digit r = true /\
     Z.of_nat (String.length (String c r)) = 1 + drawn_count d /\
     1 <= Z.of_nat (String.length (String c r)) <= max_digits - 1 /\
     (fullmatch INT_REGEX (String c r) = true <-> 0 < drawn_count d)) /\
  (max_digits <= 1 ->
   well_drawn max_digits d = false /\
   random_integer_string max_digits d = EmptyRange).
Proof.
  split.
  - intros H.
    destruct (well_drawn_facts max_digits d H) as (Hf & Hc & Hl & Hd).
    destruct (random_integer_string_returns max_digits d H)
      as (c & Hr & Hnz).
    exists c, (drawn_tail d).
    split; [exact Hr|]. split; [exact Hnz|]. split; [exact Hd|].
    cbn [String.length]. split; [lia|]. split; [lia|]. split.
    + intros Hm. apply INT_REGEX_matches in Hm
        as [Hm|(first & rest & groups & _ & Hrest & _ & Hm)].
      * injection Hm as -> _. discriminate.
      * destruct (grouped_literal_long first rest groups Hrest)
          as (c' & r' & E).
        rewrite E in Hm. injection Hm as _ Hm. rewrite Hm in Hl.
        cbn [String.length] in Hl. lia.
    + intros Hpos. apply INT_REGEX_matches. right.
      exists c, (drawn_tail d), []. repeat split; try assumption.
      * destruct (drawn_tail d); [cbn [String.length] in Hl; lia | exact Hd].
      * unfold grouped_literal. cbn [map String.concat].
        now rewrite append_empty_r.
  - intros Hmax. split.
    + destruct (well_drawn max_digits d) eqn:H; [|reflexivity].
      destruct (well_drawn_facts max_digits d H) as (_ & Hc & _). lia.
    + unfold random_integer_string. now zfalse (0 <? max_digits - 1).
Qed.

Lemma random_integer_string_shape_witness :
  well_drawn 100
    {| drawn_first := 7; drawn_count := 2; drawn_tail := "05" |} = true /\
  (exists c r,
     random_integer_string 100
       {| drawn_first := 7; drawn_count := 2; drawn_tail := "05" |}
     = Returned (String c r) /\ is_nonzero_digit c = true) /\
  1 <= 1 /\
  random_integer_string 1
    {| drawn_first := 7; drawn_count := 0; drawn_tail := "" |} = EmptyRange.
Proof.
  assert (H : well_drawn 100
                {| drawn_first := 7; drawn_count := 2; drawn_tail := "05" |}
              = true) by (vm_compute; reflexivity).
  assert (H1 : 1 <= 1) by lia.
  split; [exact H|]. split; [|split; [exact H1|]].
  - destruct (proj1 (random_integer_string_shape 100 _) H)
      as (c & r & Hr & Hc & _).
    exists c, r. split; assumption.
  - exact (proj2 (proj2 (random_integer_string_shape 1
                           {| drawn_first := 7; drawn_count := 0;
                              drawn_tail := "" |}) H1)).
Defined.

(** The dispatcher on a run of digits with no leading zero. *)
Lemma number_string_digit_run (c : ascii) (r : string) :
  is_nonzero_digit c = true -> all_chars is_digit r = true ->
  (String.length (String c r) <= 102)%nat ->
  (r = "" ->
   number_string (PyStr (String c r)) = Raise (ValueError CannotParseAsFloat)) /\
  (r <> "" -> is_Ok (number_string (PyStr (String c r)))).
Proof.
  intros Hc Hr Hlen.
  pose proof (nonzero_digit_is_digit c Hc) as Hd.
  assert (Hall : all_chars is_digit (String c r) = true)
    by (cbn [all_chars]; now rewrite Hd, Hr).
  split.
  - intros ->. unfold number_string.
    destruct (fullmatch INT_REGEX (String c "")) eqn:E.
    + apply INT_REGEX_matches in E
        as [E|(first & rest & groups & _ & Hrest & _ & E)].
      * injection E as ->. discriminate.
      * destruct (grouped_literal_long first rest groups Hrest)
          as (c' & r' & E').
        rewrite E' in E. discriminate.
    + apply float_string_unsplit. unfold splits_in_two. cbn [py_str].
      now rewrite (split_no_point _ (digits_not_point _ Hall)).
  - intros Hne.
    assert (Hg : digit_group r = true) by (destruct r; [congruence | exact Hr]).
    assert (Hm : fullmatch INT_REGEX (String c r) = true).
    { apply INT_REGEX_matches. right. exists c, r, [].
      repeat split; try assumption.
      unfold grouped_literal. cbn [map String.concat].
      now rewrite append_empty_r. }
    unfold number_string. rewrite Hm.
    rewrite (py_int_digits (String c r) Hall)
      by (unfold int_max_str_digits; lia).
    cbn [bind].
    apply integer_string_total.
    pose proof (decimal_value_within_MAX (String c r) Hall Hlen). lia.
Qed.

(** X13: the dispatcher on what [random_number_string] returns, for draws
    the module can make and at most 103 requested integer digits (the
    default is 100).  A text with a decimal part is always rendered; a text
    without one is rendered exactly when it has two digits or more, and a
    one-digit text is refused with the error of line 169. *)
Theorem number_string_on_random_text
    (max_integer_digits max_decimal_points : Z)
    (integer_draws decimal_draws : draws) (below_half : bool) :
  well_drawn max_integer_digits integer_draws = true ->
  (below_half = false ->
   well_drawn max_decimal_points decimal_draws = true) ->
  max_integer_digits <= 103 ->
  exists text,
    random_number_string max_integer_digits max_decimal_points
      integer_draws below_half decimal_draws = Returned text /\
    (below_half = true -> drawn_count integer_draws = 0 ->
     number_string (PyStr text) = Raise (ValueError CannotParseAsFloat)) /\
    (below_half = false \/ 0 < drawn_count integer_draws ->
     is_Ok (number_string (PyStr text))).
Proof.
  intros Hi Hdec Hmax.
  destruct (well_drawn_facts _ _ Hi) as (_ & Hcount & Hlen & Hdigits).
  destruct (random_integer_string_returns _ _ Hi) as (c & Hret & Hc).
  set (r := drawn_tail integer_draws) in *.
  assert (Hlen' : (String.length (String c r) <= 102)%nat)
    by (cbn [String.length]; lia).
  destruct (number_string_digit_run c r Hc Hdigits Hlen') as [Hone Hmore].
  unfold random_number_string. rewrite Hret.
  destruct below_half.
  - exists (String c r). split; [reflexivity|]. split.
    + intros _ H0. apply Hone. destruct r; [reflexivity|].
      cbn [String.length] in Hlen. lia.
    + intros [H|H]; [discriminate|]. apply Hmore. intros E.
      rewrite E in Hlen. cbn [String.length] in Hlen. lia.
  - specialize (Hdec eq_refl).
    destruct (well_drawn_facts _ _ Hdec) as (_ & _ & _ & Hddigits).
    destruct (random_integer_string_returns _ _ Hdec) as (c' & Hret' & Hc').
    rewrite Hret'. set (r' := drawn_tail decimal_draws) in *.
    exists (String c r +:+ "." +:+ String c' r').
    split; [reflexivity|]. split; [discriminate|]. intros _.
    pose proof (nonzero_digit_is_digit c Hc) as Hd.
    pose proof (nonzero_digit_is_digit c' Hc') as Hd'.
    assert (Hall : all_chars is_digit (String c r) = true)
      by (cbn [all_chars]; now rewrite Hd, Hdigits).
    assert (Hall' : all_chars is_digit (String c' r') = true)
      by (cbn [all_chars]; now rewrite Hd', Hddigits).
    rewrite (number_string_float_route
               (PyStr (String c r +:+ "." +:+ String c' r'))
               (String c r) (String c' r') eq_refl eq_refl
               (digits_not_point _ Hall)).
    rewrite (float_string_split
               (PyStr (String c r +:+ "." +:+ String c' r'))
               (String c r) (String c' r')
               (split_one_point _ _ (digits_not_point _ Hall)
                  (digits_not_point _ Hall'))).
    rewrite (py_int_digits (String c r) Hall)
      by (unfold int_max_str_digits; lia).
    cbn [bind].
    pose proof (decimal_value_within_MAX (String c r) Hall Hlen') as Hv.
    destruct (integer_string_total (decimal_value (String c r)) true
                ltac:(lia)) as [phrase ->].
    cbn [bind]. rewrite (point_names_digits _ Hall'). cbn [bind].
    now eexists.
Qed.

Lemma number_string_on_random_text_witness :
  well_drawn 100
    {| drawn_first := 7; drawn_count := 0; drawn_tail := "" |} = true /\
  (true = false ->
   well_drawn 10
     {| drawn_first := 1; drawn_count := 0; drawn_tail := "" |} = true) /\
  100 <= 103 /\
  exists text,
    random_number_string 100 10
      {| drawn_first := 7; drawn_count := 0; drawn_tail := "" |} true
      {| drawn_first := 1; drawn_count := 0; drawn_tail := "" |}
    = Returned text /\
    (true = true -> 0 = 0 ->
     number_string (PyStr text) = Raise (ValueError CannotParseAsFloat)) /\
    (true = false \/ 0 < 0 -> is_Ok (number_string (PyStr text))).
Proof.
  assert (H1 : well_drawn 100
                 {| drawn_first := 7; drawn_count := 0; drawn_tail := "" |}
               = true) by (vm_compute; reflexivity).
  assert (H2 : true = false ->
               well_drawn 10
                 {| drawn_first := 1; drawn_count := 0; drawn_tail := "" |}
               = true) by discriminate.
  assert (H3 : 100 <= 103) by lia.
  split; [exact H1|]. split; [exact H2|]. split; [exact H3|].
  exact (number_string_on_random_text 100 10 _ _ true H1 H2 H3).
Defined.

(** * Reading a phrase back *)

Lemma names_readable_true : forallb (name_readable true) (seqZ 1 999) = true.
Proof. now vm_compute. Qed.

Lemma names_readable_false : forallb (name_readable false) (seqZ 1 999) = true.
Proof. now vm_compute. Qed.

Lemma suffixes_readable : forallb suffix_readable (seq 0 positions) = true.
Proof. now vm_compute. Qed.

Lemma names_decodable_checked (use_and : bool) :
  names_decodable use_and = true.
Proof. destruct use_and; now vm_compute. Qed.

(** ** Names and suffixes *)

Lemma chunk_name_listed (use_and : bool) (chunk : Z) :
  1 <= chunk <= 999 ->
  In (chunk, chunk_name use_and chunk) (chunk_names use_and).
Proof.
  intros H. unfold chunk_names.
  apply (in_map (fun c => (c, chunk_name use_and c))).
  apply list_elem_of_In, elem_of_seqZ. lia.
Qed.

(** No two chunk values from 1 to 999 have the same name. *)
Lemma chunk_name_injective (use_and : bool) (c1 c2 : Z) :
  1 <= c1 <= 999 -> 1 <= c2 <= 999 ->
  chunk_name use_and c1 = chunk_name use_and c2 -> c1 = c2.
Proof.
  intros H1 H2 E. pose proof (names_decodable_checked use_and) as H.
  unfold names_decodable in H. cbv zeta in H. rewrite forallb_forall in H.
  pose proof (H _ (chunk_name_listed use_and c1 H1)) as Hc1.
  pose proof (H _ (chunk_name_listed use_and c2 H2)) as Hc2.
  cbn [fst snd] in Hc1, Hc2. rewrite <- E in Hc2.
  destruct (find _ (chunk_names use_and)) as [q|]; [|discriminate].
  apply Z.eqb_eq in Hc1, Hc2. congruence.
Qed.

Lemma name_facts (use_and : bool) (chunk : Z) :
  1 <= chunk <= 999 ->
  readable_phrase (chunk_name use_and chunk) /\
  position_of_phrase (chunk_name use_and chunk) = O.
Proof.
  intros H.
  assert (Hr : name_readable use_and chunk = true).
  { destruct use_and.
    - apply (forallb_seqZ (name_readable true) 1 999);
        [apply names_readable_true | lia].
    - apply (forallb_seqZ (name_readable false) 1 999);
        [apply names_readable_false | lia]. }
  unfold name_readable in Hr. cbv zeta in Hr.
  apply andb_true_iff in Hr as [Hr Hpos].
  apply andb_true_iff in Hr as [Hfirst Hcomma].
  apply Nat.eqb_eq in Hpos. split; [|exact Hpos]. split; [exact Hcomma|].
  destruct (chunk_name use_and chunk) as [|c r]; [discriminate|].
  apply andb_true_iff in Hfirst as [Hm Hz].
  apply negb_true_iff, Ascii.eqb_neq in Hm, Hz. now exists c, r.
Qed.

Lemma suffix_facts (i : nat) :
  (i < positions)%nat ->
  (i = O /\ scale_suffix i = "") \/
  (exists k w, i = S k /\ scale_suffix i = String " " w /\
               all_chars not_blank w = true /\
               all_chars not_comma w = true /\
               index_of w scale_words = Some k).
Proof.
  intros Hi. pose proof suffixes_readable as H.
  rewrite forallb_forall in H. specialize (H i).
  rewrite in_seq in H. specialize (H ltac:(lia)).
  destruct i as [|k]; [left; now split|right].
  unfold suffix_readable in H.
  destruct (scale_suffix (S k)) as [|c w]; [discriminate|].
  repeat (apply andb_true_iff in H as [H ?]).
  apply Ascii.eqb_eq in H. subst c.
  destruct (index_of w scale_words) as [j|] eqn:Ej; [|discriminate].
  assert (j = k) by (apply Nat.eqb_eq; assumption). subst j.
  exists k, w. repeat split; assumption.
Qed.

Lemma last_word_append (a w : string) :
  all_chars not_blank w = true -> last_word (a +:+ String " " w) = w.
Proof.
  intros Hw. induction a as [|c a IH].
  - rewrite append_empty_l. cbn [last_word]. now rewrite Hw.
  - rewrite append_cons. cbn [last_word].
    rewrite all_chars_append. cbn [all_chars].
    change (not_blank " ") with false. cbn [andb].
    now rewrite andb_false_r.
Qed.

(** What a phrase of a position tells. *)
Lemma phrase_facts (use_and : bool) (n : Z) (i : nat) (p : string) :
  (i < positions)%nat -> position_phrase use_and n i = Some p ->
  1 <= chunk_at n i <= 999 /\
  p = chunk_name use_and (chunk_at n i) +:+ scale_suffix i /\
  readable_phrase p /\ position_of_phrase p = i.
Proof.
  intros Hi Hp. unfold position_phrase in Hp.
  pose proof (chunk_at_range n i) as Hr.
  destruct (chunk_at n i =? 0) eqn:E; [discriminate|].
  apply Z.eqb_neq in E. injection Hp as <-.
  assert (Hc : 1 <= chunk_at n i <= 999) by lia.
  split; [exact Hc|]. split; [reflexivity|].
  destruct (name_facts use_and (chunk_at n i) Hc)
    as [[Hcomma (c & r & Hname & Hm & Hz)] Hpos].
  destruct (suffix_facts i Hi)
    as [[-> ->]|(k & w & -> & -> & Hblank & Hwcomma & Hidx)].
  - rewrite append_empty_r. split; [|exact Hpos]. split; [exact Hcomma|].
    now exists c, r.
  - split.
    + split.
      * rewrite all_chars_append, Hcomma. cbn [all_chars].
        now rewrite Hwcomma.
      * rewrite Hname, append_cons. eauto.
    + unfold position_of_phrase.
      now rewrite (last_word_append _ w Hblank), Hidx.
Qed.

Lemma phrase_none (use_and : bool) (n : Z) (i : nat) :
  position_phrase use_and n i = None -> chunk_at n i = 0.
Proof.
  unfold position_phrase.
  destruct (chunk_at n i =? 0) eqn:E; [|discriminate].
  intros _. now apply Z.eqb_eq.
Qed.

(** ** Lists of phrases *)

Lemma omap_in {A B} (f : A -> option B) (l : list A) (y : B) :
  In y (omap f l) -> exists x, In x l /\ f x = Some y.
Proof.
  induction l as [|a l IH]; [contradiction|].
  rewrite omap_cons. destruct (f a) as [b|] eqn:E.
  - intros [<-|H]; [exists a; split; [now left | exact E]|].
    destruct (IH H) as (x & Hx & Hf). exists x. split; [now right | exact Hf].
  - intros H. destruct (IH H) as (x & Hx & Hf).
    exists x. split; [now right | exact Hf].
Qed.

(** When what a function returns tells the argument it was returned for,
    two such functions with the same list of results agree everywhere. *)
Lemma omap_aligned {A B} (pos : B -> A) (f g : A -> option B) (l : list A) :
  List.NoDup l ->
  (forall x y, In x l -> f x = Some y -> pos y = x) ->
  (forall x y, In x l -> g x = Some y -> pos y = x) ->
  omap f l = omap g l -> forall x, In x l -> f x = g x.
Proof.
  induction l as [|a l IH]; intros Hnd Hf Hg E x Hx; [contradiction|].
  apply List.NoDup_cons_iff in Hnd as [Ha Hnd].
  assert (Hf' : forall x y, In x l -> f x = Some y -> pos y = x)
    by (intros; apply Hf; [now right | assumption]).
  assert (Hg' : forall x y, In x l -> g x = Some y -> pos y = x)
    by (intros; apply Hg; [now right | assumption]).
  rewrite !omap_cons in E.
  destruct (f a) as [p|] eqn:Efa; destruct (g a) as [q|] eqn:Ega.
  - injection E as -> E. destruct Hx as [<-|Hx]; [congruence|].
    now apply IH.
  - exfalso. assert (Hin : In p (omap g l)) by (rewrite <- E; now left).
    destruct (omap_in g l p Hin) as (z & Hz & Hgz).
    rewrite <- (Hg' z p Hz Hgz), (Hf a p (or_introl eq_refl) Efa) in Hz.
    contradiction.
  - exfalso. assert (Hin : In q (omap f l)) by (rewrite E; now left).
    destruct (omap_in f l q Hin) as (z & Hz & Hfz).
    rewrite <- (Hf' z q Hz Hfz), (Hg a q (or_introl eq_refl) Ega) in Hz.
    contradiction.
  - destruct Hx as [<-|Hx]; [congruence|]. now apply IH.
Qed.

Lemma append_length (a b : string) :
  String.length (a +:+ b) = (String.length a + String.length b)%nat.
Proof.
  induction a as [|c a IH]; [reflexivity|].
  rewrite append_cons. cbn [String.length]. now rewrite IH.
Qed.

Lemma append_cancel_l (s a b : string) : s +:+ a = s +:+ b -> a = b.
Proof.
  induction s as [|c s IH]; [now rewrite !append_empty_l|].
  rewrite !append_cons. intros E. injection E as E. now apply IH.
Qed.

Lemma append_cancel_r (s : string) :
  forall a b, a +:+ s = b +:+ s -> a = b.
Proof.
  induction a as [|c a IH]; intros b E.
  - destruct b as [|d b]; [reflexivity|].
    apply (f_equal String.length) in E.
    rewrite append_empty_l, append_length in E.
    cbn [String.length] in E. lia.
  - destruct b as [|d b].
    + apply (f_equal String.length) in E.
      rewrite append_empty_l, append_length in E.
      cbn [String.length] in E. lia.
    + rewrite !append_cons in E. injection E as -> E.
      now rewrite (IH b E).
Qed.

(** Two texts with no comma, each followed by nothing or by a comma and
    more text: if the wholes are the same, so are the parts. *)
Lemma comma_free_split (x : string) :
  forall y rx ry,
    all_chars not_comma x = true -> all_chars not_comma y = true ->
    (rx = "" \/ exists t, rx = String "," t) ->
    (ry = "" \/ exists t, ry = String "," t) ->
    x +:+ rx = y +:+ ry -> x = y /\ rx = ry.
Proof.
  induction x as [|c x IH]; intros y rx ry Hx Hy Hrx Hry E.
  - rewrite append_empty_l in E. destruct y as [|d y].
    + now rewrite append_empty_l in E.
    + exfalso. rewrite append_cons in E. cbn [all_chars] in Hy.
      apply andb_true_iff in Hy as [Hd _].
      destruct Hrx as [->|[t ->]]; [discriminate|].
      injection E as <- _. discriminate.
  - cbn [all_chars] in Hx. apply andb_true_iff in Hx as [Hc Hx].
    rewrite append_cons in E. destruct y as [|d y].
    + exfalso. rewrite append_empty_l in E.
      destruct Hry as [->|[t ->]]; [discriminate|].
      injection E as -> _. discriminate.
    + cbn [all_chars] in Hy. apply andb_true_iff in Hy as [Hd Hy].
      rewrite append_cons in E. injection E as -> E.
      destruct (IH y rx ry Hx Hy Hrx Hry E) as [-> ->]. now split.
Qed.

Lemma concat_cons_tail (sep x : string) (xs : list string) :
  String.concat sep (x :: xs) =
  x +:+ match xs with
        | [] => ""
        | _ :: _ => sep +:+ String.concat sep xs
        end.
Proof. destruct xs; [now rewrite append_empty_r | reflexivity]. Qed.

(** Joining readable phrases with a comma and a space loses nothing. *)
Lemma concat_comma_injective (l1 : list string) :
  forall l2,
    List.Forall readable_phrase l1 -> List.Forall readable_phrase l2 ->
    String.concat ", " l1 = String.concat ", " l2 -> l1 = l2.
Proof.
  assert (Htail : forall xs : list string,
            let t := match xs with
                     | [] => ""
                     | _ :: _ => ", " +:+ String.concat ", " xs
                     end in
            t = "" \/ exists u, t = String "," u).
  { intros [|x xs]; [now left|right]. eexists. reflexivity. }
  assert (Hne : forall x xs, readable_phrase x ->
            String.concat ", " (x :: xs) <> "").
  { intros x xs (_ & c & r & -> & _). rewrite concat_cons_tail, append_cons.
    discriminate. }
  induction l1 as [|x xs IH]; intros [|y ys] H1 H2 E.
  - reflexivity.
  - exfalso. apply List.Forall_cons_iff in H2 as [Hy _].
    now apply (Hne y ys Hy).
  - exfalso. apply List.Forall_cons_iff in H1 as [Hx _].
    now apply (Hne x xs Hx).
  - apply List.Forall_cons_iff in H1 as [Hx H1].
    apply List.Forall_cons_iff in H2 as [Hy H2].
    rewrite !concat_cons_tail in E.
    destruct (comma_free_split x y _ _ (proj1 Hx) (proj1 Hy)
                (Htail xs) (Htail ys) E) as [-> Et].
    f_equal. destruct xs as [|x' xs]; destruct ys as [|y' ys];
      try reflexivity; try discriminate.
    apply IH; try assumption.
    rewrite !append_cons, !append_empty_l in Et. now injection Et.
Qed.

Lemma concat_head (sep : string) (l : list string) :
  l <> [] -> List.Forall readable_phrase l ->
  exists c r, String.concat sep l = String c r /\
              c <> "m"%char /\ c <> "z"%char.
Proof.
  destruct l as [|x xs]; [congruence|]. intros _ H.
  apply List.Forall_cons_iff in H as [(_ & c & r & -> & Hm & Hz) _].
  rewrite concat_cons_tail, append_cons. eauto.
Qed.

(** ** Chunks and numbers *)

(** A number below a power of 1000 is determined by its chunks. *)
Lemma chunks_determine (k : nat) :
  forall m1 m2,
    0 <= m1 < 1000 ^ Z.of_nat k -> 0 <= m2 < 1000 ^ Z.of_nat k ->
    (forall i, (i < k)%nat ->
       (m1 / 1000 ^ Z.of_nat i) mod 1000 = (m2 / 1000 ^ Z.of_nat i) mod 1000) ->
    m1 = m2.
Proof.
  induction k as [|k IH]; intros m1 m2 H1 H2 Hc.
  - change (1000 ^ Z.of_nat 0) with 1 in *. lia.
  - rewrite pow_1000_succ in H1, H2.
    pose proof (Hc O ltac:(lia)) as H0.
    change (1000 ^ Z.of_nat 0) with 1 in H0. rewrite !Z.div_1_r in H0.
    assert (E : m1 / 1000 = m2 / 1000).
    { apply IH.
      - split; [apply Z.div_pos; lia | apply Z.div_lt_upper_bound; lia].
      - split; [apply Z.div_pos; lia | apply Z.div_lt_upper_bound; lia].
      - intros i Hi. specialize (Hc (S i) ltac:(lia)).
        rewrite pow_1000_succ in Hc.
        rewrite !Z.div_div by (try apply pow_1000_pos; lia). exact Hc. }
    pose proof (Z.div_mod m1 1000 ltac:(lia)).
    pose proof (Z.div_mod m2 1000 ltac:(lia)). lia.
Qed.

(** The phrases of a number within [MAX], in the order the renderer joins
    them. *)
Lemma phrases_readable (use_and : bool) (n : Z) :
  List.Forall readable_phrase
    (rev (omap (position_phrase use_and n) (seq 0 positions))).
Proof.
  apply List.Forall_rev, List.Forall_forall. intros p Hp.
  destruct (omap_in _ _ _ Hp) as (i & Hi & Hpi).
  apply in_seq in Hi.
  now destruct (phrase_facts use_and n i p ltac:(lia) Hpi) as (_ & _ & H & _).
Qed.

Lemma phrases_nonempty (use_and : bool) (n : Z) :
  n <> 0 -> Z.abs n <= MAX ->
  rev (omap (position_phrase use_and n) (seq 0 positions)) <> [].
Proof.
  intros Hne Hmax. apply rev_nonempty.
  destruct (chunks_of_abs n) as (k & _ & Hlt & Hz & Hge).
  pose proof (chunk_count_within_MAX n k Hmax Hz Hge) as Hk.
  destruct (top_chunk_nonzero n k ltac:(lia) Hlt (Hge ltac:(lia)))
    as [Hpos Hnz].
  apply (omap_nonempty _ _ (k - 1)%nat
           (chunk_name use_and (chunk_at n (k - 1))
            +:+ scale_suffix (k - 1))).
  - apply in_seq. lia.
  - unfold position_phrase. now zfalse (chunk_at n (k - 1) =? 0).
Qed.

(** The phrase of a number other than 0 within [MAX]: a sign and a text
    that starts with a letter other than m and z. *)
Lemma integer_string_form (n : Z) (use_and : bool) :
  n <> 0 -> Z.abs n <= MAX ->
  exists c r,
    String.concat ", "
      (rev (omap (position_phrase use_and n) (seq 0 positions)))
    = String c r /\
    c <> "m"%char /\ c <> "z"%char /\
    integer_string n use_and =
    Ok ((if n <? 0 then "minus " else "") +:+ String c r).
Proof.
  intros Hne Hmax.
  destruct (concat_head ", " _ (phrases_nonempty use_and n Hne Hmax)
              (phrases_readable use_and n)) as (c & r & E & Hm & Hz).
  exists c, r. split; [exact E|]. split; [exact Hm|]. split; [exact Hz|].
  rewrite (integer_string_within_MAX n use_and Hne Hmax).
  unfold render_by_position. now rewrite E.
Qed.

(** Two numbers within [MAX] with the same joined phrases have the same
    magnitude. *)
Lemma same_phrases_same_magnitude (use_and : bool) (n1 n2 : Z) :
  Z.abs n1 <= MAX -> Z.abs n2 <= MAX ->
  String.concat ", "
    (rev (omap (position_phrase use_and n1) (seq 0 positions))) =
  String.concat ", "
    (rev (omap (position_phrase use_and n2) (seq 0 positions))) ->
  Z.abs n1 = Z.abs n2.
Proof.
  intros H1 H2 E.
  apply concat_comma_injective in E; try apply phrases_readable.
  apply (f_equal (@rev string)) in E. rewrite !rev_involutive in E.
  pose proof (omap_aligned position_of_phrase
                (position_phrase use_and n1) (position_phrase use_and n2)
                (seq 0 positions) (seq_NoDup positions 0)) as Hal.
  assert (Hpos : forall n x y, In x (seq 0 positions) ->
            position_phrase use_and n x = Some y -> position_of_phrase y = x).
  { intros n x y Hx Hy. apply in_seq in Hx.
    now destruct (phrase_facts use_and n x y ltac:(lia) Hy) as (_ & _ & _ & H). }
  specialize (Hal (Hpos n1) (Hpos n2) E).
  pose proof MAX_bound as HM.
  apply (chunks_determine positions); [pose proof (Z.abs_nonneg n1); lia
                                      |pose proof (Z.abs_nonneg n2); lia|].
  intros i Hi. fold (chunk_at n1 i). fold (chunk_at n2 i).
  specialize (Hal i ltac:(apply in_seq; lia)).
  destruct (position_phrase use_and n1 i) as [p|] eqn:E1.
  - symmetry in Hal.
    destruct (phrase_facts use_and n1 i p Hi E1) as (Hc1 & Hp1 & _).
    destruct (phrase_facts use_and n2 i p Hi Hal) as (Hc2 & Hp2 & _).
    rewrite Hp1 in Hp2. apply append_cancel_r in Hp2.
    now apply (chunk_name_injective use_and).
  - symmetry in Hal.
    now rewrite (phrase_none use_and n1 i E1), (phrase_none use_and n2 i Hal).
Qed.

(** X14: no two integers within [MAX] are read the same way: if
    [integer_string] returns the same phrase for two of them (with the
    same conjunction setting), they are the same integer. *)
Theorem integer_string_injective (n1 n2 : Z) (use_and : bool) :
  Z.abs n1 <= MAX -> Z.abs n2 <= MAX ->
  integer_string n1 use_and = integer_string n2 use_and -> n1 = n2.
Proof.
  intros H1 H2 E.
  assert (Hzero : integer_string 0 use_and = Ok "zero")
    by (destruct use_and; now vm_compute).
  assert (Hz : forall n, n <> 0 -> Z.abs n <= MAX ->
            integer_string n use_and <> Ok "zero").
  { intros n Hn Hmax.
    destruct (integer_string_form n use_and Hn Hmax)
      as (c & r & _ & Hm & Hzz & ->).
    destruct (n <? 0); intros E'; injection E' as E'; congruence. }
  destruct (Z.eq_dec n1 0) as [->|Hn1]; destruct (Z.eq_dec n2 0) as [->|Hn2].
  - reflexivity.
  - exfalso. rewrite Hzero in E. now apply (Hz n2 Hn2 H2).
  - exfalso. rewrite Hzero in E. now apply (Hz n1 Hn1 H1).
  - pose proof (same_phrases_same_magnitude use_and n1 n2 H1 H2) as Hmag.
    destruct (integer_string_form n1 use_and Hn1 H1)
      as (c1 & r1 & T1 & Hm1 & _ & E1).
    destruct (integer_string_form n2 use_and Hn2 H2)
      as (c2 & r2 & T2 & Hm2 & _ & E2).
    rewrite E1, E2 in E. rewrite T1, T2 in Hmag. injection E as E.
    destruct (n1 <? 0) eqn:S1; destruct (n2 <? 0) eqn:S2.
    + apply append_cancel_l in E. specialize (Hmag E).
      apply Z.ltb_lt in S1, S2. lia.
    + exfalso. rewrite append_empty_l, append_cons in E.
      injection E as E _. congruence.
    + exfalso. rewrite append_empty_l, append_cons in E.
      injection E as E _. congruence.
    + rewrite !append_empty_l in E. specialize (Hmag E).
      apply Z.ltb_ge in S1, S2. lia.
Qed.

Lemma integer_string_injective_witness :
  Z.abs 1234 <= MAX /\ Z.abs 1234 <= MAX /\
  integer_string 1234 true = integer_string 1234 true /\ 1234 = 1234.
Proof.
  assert (H : Z.abs 1234 <= MAX).
  { apply Z.leb_le. vm_compute. reflexivity. }
  split; [exact H|]. split; [exact H|]. split; [reflexivity|].
  exact (integer_string_injective 1234 1234 true H H eq_refl).
Defined.

(** * What the dispatcher can do *)

(** X4: whatever its argument, [number_string] ends, and it either returns
    a phrase, or raises [IndexError] (an integer part beyond [MAX]), or
    raises [ValueError]; it never raises [KeyError]. *)
Theorem number_string_outcomes (v : pyvalue) :
  (is_Ok (number_string v) \/
   number_string v = Raise IndexError \/
   is_ValueError (number_string v)) /\
  number_string v <> Hang /\
  number_string v <> Raise KeyError.
Proof.
  assert (H : is_Ok (number_string v) \/
              number_string v = Raise IndexError \/
              is_ValueError (number_string v)).
  { assert (Hint : forall n,
              is_Ok (integer_string n true) \/
              integer_string n true = Raise IndexError).
    { intros n. destruct (integer_string_outcome n true) as [[_ H]|[_ H]];
        [now left | now right]. }
    destruct (number_string_routes v)
      as [(_ & s & n & _ & ->)|[(_ & _ & n & _ & ->)|(_ & _ & ->)]].
    - destruct (beyond_digit_limit v);
        [right; right; apply is_ValueError_Raise|].
      destruct (Hint n) as [H|H]; [now left | right; now left].
    - destruct (Hint n) as [H|H]; [now left | right; now left].
    - destruct (splits_in_two v) eqn:Hs.
      + destruct (splits_in_two_parts v Hs) as (integer & points & Hsplit).
        rewrite (float_string_split v integer points Hsplit).
        destruct (py_int_outcome integer) as [[n ->]|[->| ->]];
          cbn [bind];
          [|right; right; apply is_ValueError_Raise
           |right; right; apply is_ValueError_Raise].
        destruct (Hint n) as [[phrase ->]| ->]; cbn [bind];
          [|right; now left].
        destruct (all_chars is_digit points) eqn:Hd.
        * rewrite (point_names_digits points Hd). cbn [bind].
          left. now eexists.
        * rewrite (point_names_not_digits points Hd). cbn [bind].
          right. right. apply is_ValueError_Raise.
      + rewrite (float_string_unsplit v Hs).
        right. right. apply is_ValueError_Raise. }
  split; [exact H|].
  destruct H as [[p ->]|[->|[why ->]]]; split; discriminate.
Qed.

(** * The characters of a phrase *)

Lemma bind_Ok_inv {A B} (m : outcome A) (f : A -> outcome B) (b : B) :
  bind m f = Ok b -> exists a, m = Ok a /\ f a = Ok b.
Proof. destruct m; cbn [bind]; intros H; try discriminate. eauto. Qed.

Lemma all_chars_concat (p : ascii -> bool) (sep : string) (l : list string) :
  all_chars p sep = true ->
  List.Forall (fun s => all_chars p s = true) l ->
  all_chars p (String.concat sep l) = true.
Proof.
  intros Hsep. induction l as [|x l IH]; intros H; [reflexivity|].
  apply List.Forall_cons_iff in H as [Hx Hl].
  rewrite concat_cons_tail, all_chars_append, Hx.
  destruct l as [|y l]; [reflexivity|].
  rewrite all_chars_append, Hsep. now rewrite (IH Hl).
Qed.

Lemma name_chars (use_and : bool) (chunk : Z) :
  1 <= chunk <= 999 ->
  all_chars phrase_char (chunk_name use_and chunk) = true.
Proof.
  intros H. destruct use_and.
  - apply (forallb_seqZ
             (fun c => all_chars phrase_char (chunk_name true c)) 1 999);
      [now vm_compute | lia].
  - apply (forallb_seqZ
             (fun c => all_chars phrase_char (chunk_name false c)) 1 999);
      [now vm_compute | lia].
Qed.

Lemma suffix_chars (i : nat) :
  (i < positions)%nat -> all_chars phrase_char (scale_suffix i) = true.
Proof.
  intros Hi.
  assert (H : forallb (fun i => all_chars phrase_char (scale_suffix i))
                (seq 0 positions) = true) by now vm_compute.
  rewrite forallb_forall in H. apply H. apply in_seq. lia.
Qed.

Lemma digit_word_chars (c : ascii) :
  is_digit c = true -> all_chars phrase_char (digit_word c) = true.
Proof.
  intros H. apply is_digit_range in H. unfold digit_word.
  pose proof (forallb_seqZ
                (fun d => match DIGIT_NAMES !! d with
                          | Some w => all_chars phrase_char w
                          | None => false
                          end) 0 10 ltac:(now vm_compute)
                (digit_value c) ltac:(unfold digit_value; lia)) as Hd.
  cbv beta in Hd. now destruct (DIGIT_NAMES !! digit_value c).
Qed.

Lemma integer_string_chars (n : Z) (use_and : bool) (phrase : string) :
  integer_string n use_and = Ok phrase ->
  all_chars phrase_char phrase = true /\ phrase <> "".
Proof.
  intros H.
  destruct (integer_string_outcome n use_and) as [[Hmax _]|[_ E]];
    [|rewrite E in H; discriminate].
  destruct (Z.eq_dec n 0) as [->|Hne].
  - assert (E : integer_string 0 use_and = Ok "zero")
      by (destruct use_and; now vm_compute).
    rewrite E in H. injection H as <-. split; [reflexivity | discriminate].
  - destruct (integer_string_form n use_and Hne Hmax)
      as (c & r & Hjoin & _ & _ & E).
    rewrite E in H. injection H as <-. split.
    + rewrite all_chars_append. apply andb_true_iff. split.
      * now destruct (n <? 0).
      * rewrite <- Hjoin. apply all_chars_concat; [reflexivity|].
        apply List.Forall_forall. intros p Hp. apply in_rev in Hp.
        destruct (omap_in _ _ _ Hp) as (i & Hi & Hpi). apply in_seq in Hi.
        destruct (phrase_facts use_and n i p ltac:(lia) Hpi)
          as (Hc & -> & _).
        rewrite all_chars_append, (name_chars use_and _ Hc).
        apply suffix_chars. lia.
    + destruct (n <? 0); [rewrite append_cons | rewrite append_empty_l];
        discriminate.
Qed.

Lemma point_names_Ok (points : string) (names : list string) :
  point_names points = Ok names ->
  all_chars is_digit points = true /\
  names = map digit_word (list_ascii_of_string points).
Proof.
  intros H. destruct (all_chars is_digit points) eqn:Hd.
  - rewrite (point_names_digits points Hd) in H. injection H as <-.
    now split.
  - rewrite (point_names_not_digits points Hd) in H. discriminate.
Qed.

(** X15: every phrase returned, by [integer_string] (with either
    conjunction setting) and by [number_string], is a non-empty text made
    of lower-case letters, spaces, commas and hyphens only. *)
Theorem phrases_are_plain_text (phrase : string) :
  (forall n use_and, integer_string n use_and = Ok phrase ->
     all_chars phrase_char phrase = true /\ phrase <> "") /\
  (forall v, number_string v = Ok phrase ->
     all_chars phrase_char phrase = true /\ phrase <> "").
Proof.
  split; [intros n b; apply integer_string_chars|].
  intros v H.
  destruct (number_string_routes v)
    as [(_ & s & n & _ & E)|[(_ & _ & n & _ & E)|(_ & _ & E)]];
    rewrite E in H; try (now apply (integer_string_chars n true)).
  { destruct (beyond_digit_limit v); [discriminate|].
    now apply (integer_string_chars n true). }
  destruct (splits_in_two v) eqn:Hs;
    [|rewrite (float_string_unsplit v Hs) in H; discriminate].
  destruct (splits_in_two_parts v Hs) as (integer & points & Hsplit).
  rewrite (float_string_split v integer points Hsplit) in H.
  apply bind_Ok_inv in H as (n & _ & H).
  apply bind_Ok_inv in H as (p & Hp & H).
  apply bind_Ok_inv in H as (names & Hnames & H).
  injection H as <-.
  destruct (integer_string_chars n true p Hp) as [Hchars Hne].
  destruct (point_names_Ok points names Hnames) as [Hd ->].
  split.
  - rewrite !all_chars_append, Hchars. cbn [andb].
    apply andb_true_iff. split; [reflexivity|].
    apply all_chars_concat; [reflexivity|].
    apply List.Forall_forall. intros w Hw.
    apply in_map_iff in Hw as (c & <- & Hc).
    apply digit_word_chars.
    pose proof (all_chars_Forall is_digit points Hd) as Hall.
    rewrite List.Forall_forall in Hall. now apply Hall.
  - destruct p; [congruence|]. rewrite append_cons. discriminate.
Qed.
